(** * Contacts address book: repository layer, schemas and models

    A shallow embedding of [src/database/models.py], [src/schemas.py] and
    [src/repository/contacts.py], followed by the properties of the
    specification that can be settled on it.

    Conventions of the embedding.
    - A Python [str] is a Rocq [string], one [ascii] per character (the
      code points below 256).
    - A Python [int] is a [Z].
    - A raised exception is the [Raise] constructor of [result]; a Python
      [None] return is [None] of an [option].
    - The relational store behind the SQLAlchemy [Session] is a list of
      rows in insertion (primary key) order, with the autoincrement counter
      of the [contacts.id] column next to it.
    - [async def] functions are modelled by their bodies: none of them
      awaits anything.
    - The [User] model and the user and token shapes take no part in the
      repository functions and are left out. *)

From Stdlib Require Import ZArith String Ascii List Lia Sorting.Permutation
  Sorting.Sorted.
From stdpp Require Import base tactics option list strings pretty gmap sorting.

Local Open Scope string_scope.
Local Open Scope Z_scope.
Local Open Scope list_scope.

(* ===================================================================== *)
(** ** Exceptions and results *)
(* ===================================================================== *)

(** The exceptions that the modelled code, pydantic, the datetime module and
    the store can raise. [ValidationError] carries pydantic's list of
    (field, message) pairs, in field order. *)
Inductive exn : Type :=
| TypeError (msg : string)
| AttributeError (msg : string)
| ValueError (msg : string)
| OverflowError (msg : string)
| ValidationError (errors : list (string * string))
| IntegrityError (msg : string)
| DataError (msg : string).

Inductive result (A : Type) : Type :=
| Ok (a : A)
| Raise (e : exn).
Arguments Ok {A} a.
Arguments Raise {A} e.

#[global] Instance result_ret : MRet result := fun _ a => Ok a.
#[global] Instance result_bind : MBind result := fun _ _ f r =>
  match r with
  | Ok a => f a
  | Raise e => Raise e
  end.

Definition is_ok {A} (r : result A) : bool :=
  match r with Ok _ => true | Raise _ => false end.

(* ===================================================================== *)
(** ** [datetime.date] *)
(* ===================================================================== *)

Module datetime.

Record date : Type := mkdate { year : Z; month : Z; day : Z }.

#[global] Instance date_eq_dec : EqDecision date.
Proof. solve_decision. Defined.

Definition MINYEAR : Z := 1.
Definition MAXYEAR : Z := 9999.
Definition MAXORDINAL : Z := 3652059.

Definition is_leap (y : Z) : bool :=
  (y mod 4 =? 0) && (negb (y mod 100 =? 0) || (y mod 400 =? 0)).

Definition days_before_year (y : Z) : Z :=
  let y' := y - 1 in y' * 365 + y' / 4 - y' / 100 + y' / 400.

Definition DAYS_IN_MONTH : list Z :=
  [31; 28; 31; 30; 31; 30; 31; 31; 30; 31; 30; 31].

Definition DAYS_BEFORE_MONTH : list Z :=
  [0; 31; 59; 90; 120; 151; 181; 212; 243; 273; 304; 334].

(** Both tables are read at [month - 1]: the Python lists carry a
    placeholder at index 0. *)
Definition table (t : list Z) (m : Z) : Z :=
  nth (Z.to_nat (m - 1)) t 0.

Definition days_in_month (y m : Z) : Z :=
  if (m =? 2) && is_leap y then 29 else table DAYS_IN_MONTH m.

Definition days_before_month (y m : Z) : Z :=
  table DAYS_BEFORE_MONTH m + (if (2 <? m) && is_leap y then 1 else 0).

(** The check made by the [date] constructor. *)
Definition check_date_fields (y m d : Z) : bool :=
  (MINYEAR <=? y) && (y <=? MAXYEAR) &&
  (1 <=? m) && (m <=? 12) &&
  (1 <=? d) && (d <=? days_in_month y m).

Definition valid (d : date) : bool :=
  check_date_fields (year d) (month d) (day d).

Definition new (y m d : Z) : result date :=
  if negb ((MINYEAR <=? y) && (y <=? MAXYEAR)) then
    Raise (ValueError ("year " +:+ pretty y +:+ " is out of range"))
  else if negb ((1 <=? m) && (m <=? 12)) then
    Raise (ValueError "month must be in 1..12")
  else if negb ((1 <=? d) && (d <=? days_in_month y m)) then
    Raise (ValueError "day is out of range for month")
  else Ok (mkdate y m d).

Definition ymd2ord (y m d : Z) : Z :=
  days_before_year y + days_before_month y m + d.

Definition DI400Y : Z := days_before_year 401.
Definition DI100Y : Z := days_before_year 101.
Definition DI4Y : Z := days_before_year 5.

Definition ord2ymd (n : Z) : date :=
  let n := n - 1 in
  let n400 := n / DI400Y in
  let n := n mod DI400Y in
  let y := n400 * 400 + 1 in
  let n100 := n / DI100Y in
  let n := n mod DI100Y in
  let n4 := n / DI4Y in
  let n := n mod DI4Y in
  let n1 := n / 365 in
  let n := n mod 365 in
  let y := y + n100 * 100 + n4 * 4 + n1 in
  if (n1 =? 4) || (n100 =? 4) then mkdate (y - 1) 12 31
  else
    let leapyear := (n1 =? 3) && (negb (n4 =? 24) || (n100 =? 3)) in
    let m := Z.shiftr (n + 50) 5 in
    let preceding :=
      table DAYS_BEFORE_MONTH m + (if (2 <? m) && leapyear then 1 else 0) in
    let '(m, preceding) :=
      if n <? preceding
      then (m - 1,
            preceding - (table DAYS_IN_MONTH (m - 1)
                         + (if (m - 1 =? 2) && leapyear then 1 else 0)))
      else (m, preceding) in
    mkdate y m (n - preceding + 1).

Definition toordinal (d : date) : Z := ymd2ord (year d) (month d) (day d).

(** [d + timedelta(days=n)], through the ordinal of the date, as the
    library's Python source has it; the error is the one of its C source,
    which normalises year, month and day to the same date. *)
Definition add_days (d : date) (n : Z) : result date :=
  let o := toordinal d + n in
  if (0 <? o) && (o <=? MAXORDINAL) then Ok (ord2ymd o)
  else Raise (OverflowError "date value out of range").

(** Ordering of dates, as [ORDER BY] on a [Date] column sees it. *)
Definition leb (a b : date) : bool :=
  (year a <? year b)
  || ((year a =? year b)
      && ((month a <? month b)
          || ((month a =? month b) && (day a <=? day b)))).

(** *** [date.fromisoformat] and [date.isoformat]

    [fromisoformat] is modelled on CPython 3.11's [date_fromisoformat] and
    the C functions it calls. The string is read as its UTF-8 bytes, which
    must be 7, 8 or 10 of them; [parse_isoformat_date] reads four digits of
    year and then, with or without a dash as separator, either two digits
    of month and two of day, or [W], two digits of ISO week and an optional
    digit of day of the week. Bytes after the last field are not looked at.
    The [date] constructor then checks the ranges. The strings of the model
    hold the code points below 256. Up to version 3.10 the library read the
    ten-character form [YYYY-MM-DD] only. *)

Definition utf8_char (c : ascii) : list ascii :=
  let n := N_of_ascii c in
  if (n <? 128)%N then [c]
  else [ascii_of_N (192 + n / 64); ascii_of_N (128 + n mod 64)].

Definition utf8 (s : string) : list ascii :=
  flat_map utf8_char (list_ascii_of_string s).

Definition digit_value (c : ascii) : option Z :=
  let n := Z.of_N (N_of_ascii c) - 48 in
  if (0 <=? n) && (n <=? 9) then Some n else None.

Fixpoint parse_digits (ptr : list ascii) (var : Z) (num_digits : nat)
  : option (list ascii * Z) :=
  match num_digits with
  | O => Some (ptr, var)
  | S k =>
      match ptr with
      | [] => None
      | c :: ptr' =>
          match digit_value c with
          | Some tmp => parse_digits ptr' (var * 10 + tmp) k
          | None => None
          end
      end
  end.

(** [*p == c]: past the last byte the C string holds its terminating zero,
    which is none of the characters compared with. *)
Definition at_char (ptr : list ascii) (c : ascii) : bool :=
  match ptr with
  | c' :: _ => Ascii.eqb c' c
  | [] => false
  end.

(** [if (uses_separator && *(p++) != '-') return -2;] *)
Definition expect_separator (uses_separator : bool) (ptr : list ascii)
  : option (list ascii) :=
  if uses_separator then
    if at_char ptr "-" then Some (tail ptr) else None
  else Some ptr.

(** The arithmetic of the week form is C's, on [int]: division truncates
    and the remainder takes the sign of the dividend. It differs from
    Python's only below zero, which the year 0000 reaches. *)
Definition ymd_to_ord (y m d : Z) : Z :=
  let y' := y - 1 in
  (y' * 365 + Z.quot y' 4 - Z.quot y' 100 + Z.quot y' 400)
  + days_before_month y m + d.

Definition weekday (y m d : Z) : Z := Z.rem (ymd_to_ord y m d + 6) 7.

Definition iso_week1_monday (y : Z) : Z :=
  let first_day := ymd_to_ord y 1 1 in
  let first_weekday := Z.rem (first_day + 6) 7 in
  let week1_monday := first_day - first_weekday in
  if 3 <? first_weekday then week1_monday + 7 else week1_monday.

(** The C arrays [_days_in_month] and [_days_before_month], with their
    unused entry at index 0. An index below 0 lies outside the array; it is
    reached only from an ordinal below 1, where the month computed stays
    below 1 whatever is read, and the constructor refuses it. *)
Definition c_table (t : list Z) (i : Z) : Z :=
  if i <? 0 then 0 else nth (Z.to_nat i) (0 :: t) 0.

Definition ord_to_ymd (ordinal : Z) : Z * Z * Z :=
  let ordinal := ordinal - 1 in
  let n400 := Z.quot ordinal DI400Y in
  let n := Z.rem ordinal DI400Y in
  let y := n400 * 400 + 1 in
  let n100 := Z.quot n DI100Y in
  let n := Z.rem n DI100Y in
  let n4 := Z.quot n DI4Y in
  let n := Z.rem n DI4Y in
  let n1 := Z.quot n 365 in
  let n := Z.rem n 365 in
  let y := y + n100 * 100 + n4 * 4 + n1 in
  if (n1 =? 4) || (n100 =? 4) then (y - 1, 12, 31)
  else
    let leapyear := (n1 =? 3) && (negb (n4 =? 24) || (n100 =? 3)) in
    let m := Z.shiftr (n + 50) 5 in
    let preceding :=
      c_table DAYS_BEFORE_MONTH m + (if (2 <? m) && leapyear then 1 else 0) in
    let '(m, preceding) :=
      if n <? preceding
      then (m - 1,
            preceding - (if (m - 1 =? 2) && is_leap y then 29
                         else c_table DAYS_IN_MONTH (m - 1)))
      else (m, preceding) in
    (y, m, n - preceding + 1).

Definition iso_to_ymd (iso_year iso_week iso_day : Z) : option (Z * Z * Z) :=
  let out_of_range :=
    ((iso_week <=? 0) || (53 <=? iso_week))
    && negb ((iso_week =? 53)
             && (let first_weekday := weekday iso_year 1 1 in
                 (first_weekday =? 3)
                 || ((first_weekday =? 2) && is_leap iso_year))) in
  if out_of_range then None
  else if (iso_day <=? 0) || (8 <=? iso_day) then None
  else
    let day_1 := iso_week1_monday iso_year in
    let day_offset := (iso_week - 1) * 7 + iso_day - 1 in
    Some (ord_to_ymd (day_1 + day_offset)).

(** [len] is the number of bytes of [dtstr]; [p - dtstr], the number of
    bytes read so far, is [len] less what is left at [p]. *)
Definition parse_isoformat_date (dtstr : list ascii) (len : nat)
  : option (Z * Z * Z) :=
  '(p, y) ← parse_digits dtstr 0 4;
  let uses_separator := at_char p "-" in
  let p := if uses_separator then tail p else p in
  if at_char p "W" then
    let p := tail p in
    '(p, iso_week) ← parse_digits p 0 2;
    iso_day ←
      (if (length dtstr - length p <? len)%nat then
         p ← expect_separator uses_separator p;
         '(_, iso_day) ← parse_digits p 0 1;
         Some iso_day
       else Some 1);
    iso_to_ymd y iso_week iso_day
  else
    '(p, m) ← parse_digits p 0 2;
    p ← expect_separator uses_separator p;
    '(_, d) ← parse_digits p 0 2;
    Some (y, m, d).

(** The message quotes the string as [repr] writes one that has no quote,
    backslash or unprintable character; the callers modelled here replace
    the message by their own. *)
Definition invalid_isoformat (date_string : string) : exn :=
  ValueError ("Invalid isoformat string: '" +:+ date_string +:+ "'").

Definition fromisoformat (date_string : string) : result date :=
  let dt_ptr := utf8 date_string in
  let len := length dt_ptr in
  if (len =? 7)%nat || (len =? 8)%nat || (len =? 10)%nat then
    match parse_isoformat_date dt_ptr len with
    | Some (y, m, d) => new y m d
    | None => Raise (invalid_isoformat date_string)
    end
  else Raise (invalid_isoformat date_string).

Definition digit_char (n : Z) : ascii := ascii_of_N (Z.to_N (48 + n mod 10)).

(** [n] decimal digits of [z], most significant first: ["%0nd" % z] when
    [0 <= z < 10^n]. *)
Fixpoint zero_padded (n : nat) (z : Z) : list ascii :=
  match n with
  | O => []
  | S k => zero_padded k (z / 10) ++ [digit_char z]
  end.

Definition isoformat (d : date) : string :=
  string_of_list_ascii
    (zero_padded 4 (year d) ++ "-"%char :: zero_padded 2 (month d)
       ++ "-"%char :: zero_padded 2 (day d)).

(** The date without the dashes, [d.strftime("%Y%m%d")]: a form that the
    code never writes, used to state what [fromisoformat] reads. *)
Definition basic_format (d : date) : string :=
  string_of_list_ascii
    (zero_padded 4 (year d) ++ zero_padded 2 (month d)
       ++ zero_padded 2 (day d)).

End datetime.

Export datetime (date, mkdate).

(* ===================================================================== *)
(** ** Python values and strings *)
(* ===================================================================== *)

(** The Python values that flow through the modelled code: [None], [str]
    and [datetime.date]. *)
Inductive pyval : Type :=
| PyNone
| PyStr (s : string)
| PyDate (d : date).

(** [bool(v)], as [if v:] sees it. A [date] has no [__bool__] or [__len__]
    and is therefore true. *)
Definition truthy (v : pyval) : bool :=
  match v with
  | PyNone => false
  | PyStr s => negb (String.eqb s "")
  | PyDate _ => true
  end.

Definition of_opt_str (o : option string) : pyval :=
  match o with Some s => PyStr s | None => PyNone end.

Definition of_opt_date (o : option date) : pyval :=
  match o with Some d => PyDate d | None => PyNone end.

(** [len(s) <= n] *)
Definition len_le (s : string) (n : nat) : bool :=
  (String.length s <=? n)%nat.

(* ===================================================================== *)
(** ** [src/database/models.py] *)
(* ===================================================================== *)

Module models.

Module Contact.

Definition tablename : string := "contacts".

(** A persisted row of the [contacts] table. Every column but [user_id]
    is declared [nullable=False]. *)
Record t : Type := mk {
  id : Z;
  first_name : string;
  last_name : string;
  email : string;
  phone_number : string;
  date_of_birth : date;
  additional_data : string;
  user_id : option Z
}.

(** The [String(n)] bounds of the text columns. *)
Definition first_name_size : nat := 25.
Definition last_name_size : nat := 50.
Definition email_size : nat := 100.
Definition phone_number_size : nat := 15.
Definition additional_data_size : nat := 750.

(** The names of its own that [hasattr(Contact, k)] answers true for: the
    mapped columns, the [user] relationship, [__tablename__], and what the
    declarative [Base] contributes. The names every Python class has
    ([__doc__], [__init__], [__module__] and the like) are left out: no
    key that this program passes to the constructor is one of them. *)
Definition class_attributes : list string :=
  [ "id"; "first_name"; "last_name"; "email"; "phone_number";
    "date_of_birth"; "additional_data"; "user_id"; "user";
    "__tablename__"; "__table__"; "__mapper__"; "metadata"; "registry" ].

Definition hasattr (k : string) : bool :=
  existsb (String.eqb k) class_attributes.

(** An ORM instance that is not (or not yet again) flushed: the primary
    key the identity map knows it under, if any, and the attribute
    values set on it. *)
Record instance : Type := mkinstance {
  pk : option Z;
  owner : option Z;
  attrs : gmap string pyval
}.

Definition setattr (self : instance) (k : string) (v : pyval) : instance :=
  mkinstance (pk self) (owner self) (<[k := v]> (attrs self)).

(** SQLAlchemy's default declarative constructor:
    [for k in kwargs: if not hasattr(cls_, k): raise TypeError(...);
     setattr(self, k, kwargs[k])]. *)
Fixpoint declarative_constructor (self : instance)
    (kwargs : list (string * pyval)) : result instance :=
  match kwargs with
  | [] => Ok self
  | (k, v) :: kwargs' =>
      if hasattr k then declarative_constructor (setattr self k v) kwargs'
      else Raise (TypeError ("'" +:+ k
                   +:+ "' is an invalid keyword argument for Contact"))
  end.

Definition new (kwargs : list (string * pyval)) : result instance :=
  declarative_constructor (mkinstance None None ∅) kwargs.

(** The instance the session hands out for a loaded row. *)
Definition load (r : t) : instance :=
  mkinstance (Some (id r)) (user_id r)
    (list_to_map
       [ ("first_name", PyStr (first_name r));
         ("last_name", PyStr (last_name r));
         ("email", PyStr (email r));
         ("phone_number", PyStr (phone_number r));
         ("date_of_birth", PyDate (date_of_birth r));
         ("additional_data", PyStr (additional_data r)) ]).

(** What the store does with the value bound to a [String(n) NOT NULL]
    column of an INSERT or UPDATE. *)
Definition text_column (col : string) (n : nat) (v : option pyval)
  : result string :=
  match v with
  | Some (PyStr s) =>
      if len_le s n then Ok s
      else Raise (DataError ("value too long for column " +:+ col))
  | Some (PyDate _) =>
      Raise (DataError ("invalid value for column " +:+ col))
  | Some PyNone | None =>
      Raise (IntegrityError ("null value in column " +:+ col))
  end.

Definition date_column (col : string) (v : option pyval) : result date :=
  match v with
  | Some (PyDate d) => Ok d
  | Some (PyStr _) =>
      Raise (DataError ("invalid value for column " +:+ col))
  | Some PyNone | None =>
      Raise (IntegrityError ("null value in column " +:+ col))
  end.

(** The row an INSERT or UPDATE writes for an instance, under the
    primary key [i]. *)
Definition to_row (i : Z) (self : instance) : result t :=
  fn ← text_column "first_name" first_name_size (attrs self !! "first_name");
  ln ← text_column "last_name" last_name_size (attrs self !! "last_name");
  em ← text_column "email" email_size (attrs self !! "email");
  ph ← text_column "phone_number" phone_number_size
         (attrs self !! "phone_number");
  dob ← date_column "date_of_birth" (attrs self !! "date_of_birth");
  ad ← text_column "additional_data" additional_data_size
         (attrs self !! "additional_data");
  Ok (mk i fn ln em ph dob ad (owner self)).

(** The row satisfies the column bounds of the table. *)
Definition storable (r : t) : bool :=
  len_le (first_name r) first_name_size
  && len_le (last_name r) last_name_size
  && len_le (email r) email_size
  && len_le (phone_number r) phone_number_size
  && len_le (additional_data r) additional_data_size.

End Contact.

End models.

Import models.

(* ===================================================================== *)
(** ** [src/schemas.py] *)
(* ===================================================================== *)

Module schemas.

(** The outcome of validating one field: the value, or the message of the
    error pydantic records for it. *)
Definition field (A : Type) : Type := A + string.

Definition field_errors {A} (loc : string) (r : field A)
  : list (string * string) :=
  match r with
  | inl _ => []
  | inr msg => [(loc, msg)]
  end.

(** A required [str] field declared with [Field(max_length=n)]. *)
Definition str_max_length (n : nat) (v : option pyval) : field string :=
  match v with
  | None => inr "field required"
  | Some PyNone => inr "none is not an allowed value"
  | Some (PyStr s) =>
      if len_le s n then inl s
      else inr ("ensure this value has at most " +:+ pretty (N.of_nat n)
                +:+ " characters")
  | Some (PyDate _) => inr "str type expected"
  end.

(** An [Optional[str]] field without constraints. *)
Definition optional_str (v : option pyval) : field (option string) :=
  match v with
  | None | Some PyNone => inl None
  | Some (PyStr s) => inl (Some s)
  | Some (PyDate _) => inr "str type expected"
  end.

(** The message with which both date validators raise [ValueError]. *)
Definition date_format_message : string :=
  "Invalid date format. Required format: YYYY-MM-DD".

(** A [date] field with default [None] and a [pre=True] validator: the
    validator runs on a supplied value only, a [ValueError] it raises
    becomes the error of the field, and its result goes through
    pydantic's own optional-date validation. *)
Definition optional_date (pre : pyval → result pyval) (v : option pyval)
  : field (option date) :=
  match v with
  | None => inl None
  | Some v =>
      match pre v with
      | Raise (ValueError msg) | Raise (TypeError msg) => inr msg
      | Raise _ => inr "validator failed"
      | Ok PyNone => inl None
      | Ok (PyDate d) => inl (Some d)
      | Ok (PyStr _) => inr "invalid date format"
      end
  end.

Module ContactIn.

Record t : Type := mk {
  first_name : string;
  last_name : string;
  email : string;
  phone_number : string;
  date_of_birth : option date;
  additional_data : string
}.

Definition first_name_max : nat := 25.
Definition last_name_max : nat := 50.
Definition email_max : nat := 100.
Definition phone_number_max : nat := 15.
Definition additional_data_max : nat := 500.

(** [@validator('date_of_birth', pre=True)] *)
Definition check_date_format (birthday_date : pyval) : result pyval :=
  match birthday_date with
  | PyStr s =>
      if String.eqb s "" then Ok PyNone
      else
        match datetime.fromisoformat s with
        | Ok d => Ok (PyDate d)
        | Raise (ValueError _) =>
            Raise (ValueError
                     "Invalid date format. Required format: YYYY-MM-DD")
        | Raise e => Raise e
        end
  | _ => Ok birthday_date
  end.

(** The constructor of [ContactIn] on keyword arguments: every field is validated, in declaration
    order, and all errors are reported together. *)
Definition validate (data : gmap string pyval) : result t :=
  let fn := str_max_length first_name_max (data !! "first_name") in
  let ln := str_max_length last_name_max (data !! "last_name") in
  let em := str_max_length email_max (data !! "email") in
  let ph := str_max_length phone_number_max (data !! "phone_number") in
  let dob := optional_date check_date_format (data !! "date_of_birth") in
  let ad := str_max_length additional_data_max (data !! "additional_data") in
  match fn, ln, em, ph, dob, ad with
  | inl fn, inl ln, inl em, inl ph, inl dob, inl ad =>
      Ok (mk fn ln em ph dob ad)
  | _, _, _, _, _, _ =>
      Raise (ValidationError
               (field_errors "first_name" fn ++ field_errors "last_name" ln
                ++ field_errors "email" em
                ++ field_errors "phone_number" ph
                ++ field_errors "date_of_birth" dob
                ++ field_errors "additional_data" ad))
  end.

End ContactIn.

Module ContactOut.

(** [class ContactOut(ContactIn)]: the inherited fields and validators,
    and [id: int]. *)
Record t : Type := mk { base : ContactIn.t; id : Z }.

(** What pydantic reads off the ORM object, field by field. *)
Definition getter_dict (obj : Contact.t) : gmap string pyval :=
  list_to_map
    [ ("first_name", PyStr (Contact.first_name obj));
      ("last_name", PyStr (Contact.last_name obj));
      ("email", PyStr (Contact.email obj));
      ("phone_number", PyStr (Contact.phone_number obj));
      ("date_of_birth", PyDate (Contact.date_of_birth obj));
      ("additional_data", PyStr (Contact.additional_data obj)) ].

(** [ContactOut.from_orm(obj)] ([orm_mode = True]). The [id] of a row is
    an [int] and passes its validator. *)
Definition from_orm (obj : Contact.t) : result t :=
  b ← ContactIn.validate (getter_dict obj);
  Ok (mk b (Contact.id obj)).

End ContactOut.

Module ContactUpdate.

Record t : Type := mk {
  first_name : option string;
  lastname : option string;
  email : option string;
  phone_number : option string;
  date_of_birth : option date;
  additional_data : option string
}.

(** [@validator('date_of_birth', pre=True)] *)
Definition check_date_format (birthday_date : pyval) : result pyval :=
  match birthday_date with
  | PyStr s =>
      if String.eqb s "" then Ok PyNone
      else
        match datetime.fromisoformat s with
        | Ok d => Ok (PyDate d)
        | Raise (ValueError _) =>
            Raise (ValueError
                     "Invalid date format. Required format: YYYY-MM-DD")
        | Raise e => Raise e
        end
  | _ => Ok birthday_date
  end.

Definition validate (data : gmap string pyval) : result t :=
  let fn := optional_str (data !! "first_name") in
  let ln := optional_str (data !! "lastname") in
  let em := optional_str (data !! "email") in
  let ph := optional_str (data !! "phone_number") in
  let dob := optional_date check_date_format (data !! "date_of_birth") in
  let ad := optional_str (data !! "additional_data") in
  match fn, ln, em, ph, dob, ad with
  | inl fn, inl ln, inl em, inl ph, inl dob, inl ad =>
      Ok (mk fn ln em ph dob ad)
  | _, _, _, _, _, _ =>
      Raise (ValidationError
               (field_errors "first_name" fn ++ field_errors "lastname" ln
                ++ field_errors "email" em
                ++ field_errors "phone_number" ph
                ++ field_errors "date_of_birth" dob
                ++ field_errors "additional_data" ad))
  end.

(** The fields of a model instance, by name ([self.__dict__]). *)
Definition fields (self : t) : gmap string pyval :=
  list_to_map
    [ ("first_name", of_opt_str (first_name self));
      ("lastname", of_opt_str (lastname self));
      ("email", of_opt_str (email self));
      ("phone_number", of_opt_str (phone_number self));
      ("date_of_birth", of_opt_date (date_of_birth self));
      ("additional_data", of_opt_str (additional_data self)) ].

(** [self.name]: a pydantic model has the attributes of its fields and
    raises [AttributeError] for any other name. *)
Definition getattr (self : t) (name : string) : result pyval :=
  match fields self !! name with
  | Some v => Ok v
  | None =>
      Raise (AttributeError
               ("'ContactUpdate' object has no attribute '" +:+ name +:+ "'"))
  end.

End ContactUpdate.

Module ContactDelete.

(** [class ContactDelete(ContactIn)]: the same body as [ContactOut]. *)
Record t : Type := mk { base : ContactIn.t; id : Z }.

Definition from_orm (obj : Contact.t) : result t :=
  b ← ContactIn.validate (ContactOut.getter_dict obj);
  Ok (mk b (Contact.id obj)).

End ContactDelete.

(** A required [str] field declared with
    [Field(min_length=lo, max_length=hi)]: the lower bound is checked
    first. *)
Definition str_length (lo hi : nat) (v : option pyval) : field string :=
  match v with
  | None => inr "field required"
  | Some PyNone => inr "none is not an allowed value"
  | Some (PyStr s) =>
      if (String.length s <? lo)%nat then
        inr ("ensure this value has at least " +:+ pretty (N.of_nat lo)
             +:+ " characters")
      else if len_le s hi then inl s
      else inr ("ensure this value has at most " +:+ pretty (N.of_nat hi)
                +:+ " characters")
  | Some (PyDate _) => inr "str type expected"
  end.

(** A required [str] field without constraints. *)
Definition required_str (v : option pyval) : field string :=
  match v with
  | None => inr "field required"
  | Some PyNone => inr "none is not an allowed value"
  | Some (PyStr s) => inl s
  | Some (PyDate _) => inr "str type expected"
  end.

Module UserIn.

Record t : Type := mk {
  username : string;
  email : string;
  password : string
}.

Definition validate (data : gmap string pyval) : result t :=
  let un := str_length 5 16 (data !! "username") in
  let em := required_str (data !! "email") in
  let pw := str_length 6 10 (data !! "password") in
  match un, em, pw with
  | inl un, inl em, inl pw => Ok (mk un em pw)
  | _, _, _ =>
      Raise (ValidationError
               (field_errors "username" un ++ field_errors "email" em
                ++ field_errors "password" pw))
  end.

End UserIn.

End schemas.

Import schemas.

(* ===================================================================== *)
(** ** The store behind the session *)
(* ===================================================================== *)

Module sql.

(** *** [LIKE] patterns

    [%] matches any run of characters, [_] any one character. Whether a
    backslash quotes the character after it depends on the store (it does
    on PostgreSQL and MySQL, it does not on SQLite or in the SQL
    standard), hence the flag. A quoting backslash at the very end of a
    pattern stands for itself; the patterns of [find_contact] end in [%]
    and never reach that case. *)
Inductive tok : Type :=
| Any
| One
| Lit (c : ascii).

Fixpoint tokens (backslash : bool) (p : list ascii) : list tok :=
  match p with
  | [] => []
  | c :: p' =>
      if Ascii.eqb c "%" then Any :: tokens backslash p'
      else if Ascii.eqb c "_" then One :: tokens backslash p'
      else if backslash && Ascii.eqb c "\" then
        match p' with
        | [] => [Lit c]
        | c' :: p'' => Lit c' :: tokens backslash p''
        end
      else Lit c :: tokens backslash p'
  end.

Fixpoint like_match (ts : list tok) (s : list ascii) : bool :=
  match ts with
  | [] => match s with [] => true | _ :: _ => false end
  | Any :: ts' =>
      (fix skip (s : list ascii) : bool :=
         like_match ts' s
         || match s with [] => false | _ :: s' => skip s' end) s
  | One :: ts' =>
      match s with [] => false | _ :: s' => like_match ts' s' end
  | Lit c :: ts' =>
      match s with
      | [] => false
      | x :: s' => Ascii.eqb x c && like_match ts' s'
      end
  end.

(** Case folding, on the letters A to Z, as the collations fold them that
    do not treat the letter I apart. How [ILIKE] folds a character outside
    ASCII depends on the encoding and the collation of the store and is
    not modelled: what is proved of [ilike] is stated for ASCII text, or
    does not depend on the folding. *)
Definition lower_char (c : ascii) : ascii :=
  let n := N_of_ascii c in
  if ((65 <=? n) && (n <=? 90))%N then ascii_of_N (n + 32) else c.

Definition lower (s : string) : list ascii :=
  map lower_char (list_ascii_of_string s).

(** [column.ilike(pattern)] *)
Definition ilike (backslash : bool) (value pattern : string) : bool :=
  like_match (tokens backslash (lower pattern)) (lower value).

(** [or_(...)], [and_(...)] and [extract(field, d)]. *)
Definition or_ (clauses : list bool) : bool := existsb id clauses.
Definition and_ (clauses : list bool) : bool := forallb id clauses.
Definition extract (field : date → Z) (d : date) : Z := field d.

End sql.

Module orm.

(** The state a [Session] gives access to: the rows of [contacts] in
    primary-key order, the next value of the autoincrement column, and
    the [LIKE] convention of the store. *)
Record Session : Type := mkSession {
  contacts : list Contact.t;
  next_id : Z;
  backslash_escape : bool
}.

(** A query under construction: [db.query(Contact)] and what [filter],
    [order_by], [offset] and [limit] have added to it. *)
Record Query : Type := mkQuery {
  session : Session;
  criterion : Contact.t → bool;
  by_date_of_birth : bool;
  q_offset : option Z;
  q_limit : option Z
}.

Definition query (db : Session) : Query :=
  mkQuery db (λ _, true) false None None.

Definition filter_ (p : Contact.t → bool) (q : Query) : Query :=
  mkQuery (session q) (λ c, criterion q c && p c)
    (by_date_of_birth q) (q_offset q) (q_limit q).

Definition order_by_date_of_birth (q : Query) : Query :=
  mkQuery (session q) (criterion q) true (q_offset q) (q_limit q).

Definition offset (n : Z) (q : Query) : Query :=
  mkQuery (session q) (criterion q) (by_date_of_birth q) (Some n) (q_limit q).

Definition limit (n : Z) (q : Query) : Query :=
  mkQuery (session q) (criterion q) (by_date_of_birth q) (q_offset q) (Some n).

(** [ORDER BY date_of_birth]: ascending on the whole date. *)
Definition dob_le (a b : Contact.t) : Prop :=
  datetime.leb (Contact.date_of_birth a) (Contact.date_of_birth b).

#[global] Instance dob_le_dec : RelDecision dob_le.
Proof. intros a b. unfold dob_le. apply _. Defined.

Definition negative (n : option Z) : bool :=
  match n with Some n => n <? 0 | None => false end.

Definition drop_offset {A} (n : option Z) (l : list A) : list A :=
  match n with Some n => drop (Z.to_nat n) l | None => l end.

Definition take_limit {A} (n : option Z) (l : list A) : list A :=
  match n with Some n => take (Z.to_nat n) l | None => l end.

(** The rows a query selects before [OFFSET] and [LIMIT] apply. *)
Definition selected (q : Query) : list Contact.t :=
  let rows := filter (λ c, criterion q c) (contacts (session q)) in
  if by_date_of_birth q then merge_sort dob_le rows else rows.

(** [q.all()]. The store rejects a negative [OFFSET] or [LIMIT], as
    PostgreSQL does; the properties below are about non-negative values. *)
Definition all (q : Query) : result (list Contact.t) :=
  if negative (q_offset q) then Raise (DataError "OFFSET must not be negative")
  else if negative (q_limit q) then Raise (DataError "LIMIT must not be negative")
  else Ok (take_limit (q_limit q) (drop_offset (q_offset q) (selected q))).

(** [q.first()]: the query with [LIMIT 1], and its only row or [None]. *)
Definition first (q : Query) : result (option Contact.t) :=
  rows ← all (limit 1 q);
  Ok (head rows).

(** [db.add(obj); db.commit()]: one INSERT, the store assigning the
    primary key. The instance is then known under that key. *)
Definition add_commit (db : Session) (obj : Contact.instance)
  : result (Contact.instance * Session) :=
  let i := next_id db in
  row ← Contact.to_row i obj;
  Ok (Contact.mkinstance (Some i) (Contact.owner obj) (Contact.attrs obj),
      mkSession (contacts db ++ [row]) (i + 1) (backslash_escape db)).

(** [db.delete(obj); db.commit()]: one DELETE by primary key. The counter
    is kept, as a sequence does; a store that numbers a new row from the
    highest id left would lower it when the last row goes. The properties
    proved of removal do not depend on the counter. *)
Definition delete_commit (db : Session) (obj : Contact.t) : Session :=
  mkSession
    (filter (λ c, Contact.id c ≠ Contact.id obj) (contacts db))
    (next_id db) (backslash_escape db).

(** [db.commit()] with a loaded instance whose attributes were assigned:
    one UPDATE by primary key. *)
Definition update_commit (db : Session) (obj : Contact.instance)
  : result Session :=
  match Contact.pk obj with
  | Some i =>
      row ← Contact.to_row i obj;
      Ok (mkSession
            (map (λ c, if Contact.id c =? i then row else c) (contacts db))
            (next_id db) (backslash_escape db))
  | None => Raise (DataError "instance is not persistent")
  end.

(** [db.refresh(obj)]: the row now stored under the instance's key. *)
Definition refresh (db : Session) (obj : Contact.instance)
  : result Contact.t :=
  match Contact.pk obj with
  | Some i =>
      match List.find (λ c, Contact.id c =? i) (contacts db) with
      | Some row => Ok row
      | None => Raise (DataError "could not refresh instance")
      end
  | None => Raise (DataError "instance is not persistent")
  end.

End orm.

Import orm.

(* ===================================================================== *)
(** ** [src/repository/contacts.py] *)
(* ===================================================================== *)

Module repository.

Definition get_contacts (skip limit : Z) (db : Session)
  : result (list Contact.t) :=
  all (orm.limit limit (offset skip (query db))).

Definition get_contact (contact_id : Z) (db : Session)
  : result (option Contact.t) :=
  first (filter_ (λ c, Contact.id c =? contact_id) (query db)).

Definition find_contact (keyword : string) (skip limit : Z) (db : Session)
  : result (list Contact.t) :=
  let word := "%" +:+ keyword +:+ "%" in
  let ilike := sql.ilike (backslash_escape db) in
  all (orm.limit limit (offset skip
    (filter_ (λ c, sql.or_ [ ilike (Contact.first_name c) word;
                             ilike (Contact.last_name c) word;
                             ilike (Contact.email c) word ])
       (query db)))).

Definition create_contact (body : ContactIn.t) (db : Session)
  : result (Contact.t * Session) :=
  contact ← Contact.new
    [ ("name", PyStr (ContactIn.first_name body));
      ("lastname", PyStr (ContactIn.last_name body));
      ("email", PyStr (ContactIn.email body));
      ("phone", PyStr (ContactIn.phone_number body));
      ("birthday", of_opt_date (ContactIn.date_of_birth body));
      ("notes", PyStr (ContactIn.additional_data body)) ];
  '(contact, db) ← add_commit db contact;
  row ← refresh db contact;
  Ok (row, db).

Definition remove_contact (contact_id : Z) (db : Session)
  : result (option Contact.t * Session) :=
  contact ← first (filter_ (λ c, Contact.id c =? contact_id) (query db));
  match contact with
  | Some c => Ok (Some c, delete_commit db c)
  | None => Ok (None, db)
  end.

(** [if body.<test>: contact.<column> = body.<source>] *)
Definition assign_if (body : ContactUpdate.t) (test column source : string)
    (contact : Contact.instance) : result Contact.instance :=
  t ← ContactUpdate.getattr body test;
  if truthy t then
    v ← ContactUpdate.getattr body source;
    Ok (Contact.setattr contact column v)
  else Ok contact.

Definition update_contact (contact_id : Z) (body : ContactUpdate.t)
    (db : Session) : result (option Contact.t * Session) :=
  contact ← first (filter_ (λ c, Contact.id c =? contact_id) (query db));
  match contact with
  | Some c =>
      let contact := Contact.load c in
      contact ← assign_if body "name" "first_name" "first_name" contact;
      contact ← assign_if body "lastname" "last_name" "last_name" contact;
      contact ← assign_if body "email" "email" "email" contact;
      contact ← assign_if body "phone" "phone_number" "phone_number" contact;
      contact ← assign_if body "birthday" "date_of_birth" "date_of_birth"
                  contact;
      contact ← assign_if body "notes" "additional_data" "additional_data"
                  contact;
      db ← update_commit db contact;
      row ← refresh db contact;
      Ok (Some row, db)
  | None => Ok (None, db)
  end.

(** [today] is the reading of [datetime.now().date()]. *)
Definition get_contacts_birthday_for_next_week (today : date)
    (skip limit : Z) (db : Session) : result (list Contact.t) :=
  next_week ← datetime.add_days today 7;
  let month := sql.extract datetime.month in
  let day := sql.extract datetime.day in
  all (orm.limit limit (offset skip (order_by_date_of_birth
    (filter_
       (λ c,
          let date_of_birth := Contact.date_of_birth c in
          sql.or_
            [ sql.and_
                [ month today =? month next_week;
                  month date_of_birth =? month today;
                  day date_of_birth >=? day today;
                  day date_of_birth <=? day next_week ];
              sql.and_
                [ negb (month today =? month next_week);
                  month date_of_birth =? month today;
                  day date_of_birth >=? day today ];
              sql.and_
                [ negb (month today =? month next_week);
                  month date_of_birth =? month next_week;
                  day date_of_birth <=? day next_week ] ])
       (query db))))).

End repository.

Import repository.

(* ===================================================================== *)
(** ** The specification's own words *)
(* ===================================================================== *)

Module spec.

(** The birthday window: with [next = today + 7], either both fall in one
month, and the birth month is that month and the birth day lies between
the two days; or they do not, and the birth date is in [today]'s month on
or after its day, or in [next]'s month on or before its day. *)
Definition upcoming_birthday (today next dob : date) : Prop :=
  if decide (datetime.month today = datetime.month next) then
    datetime.month dob = datetime.month today
    ∧ datetime.day today ≤ datetime.day dob ≤ datetime.day next
  else
    (datetime.month dob = datetime.month today
     ∧ datetime.day today ≤ datetime.day dob)
    ∨ (datetime.month dob = datetime.month next
       ∧ datetime.day dob ≤ datetime.day next).

#[global] Instance upcoming_birthday_dec today next dob :
  Decision (upcoming_birthday today next dob).
Proof. unfold upcoming_birthday. destruct (decide _); apply _. Defined.










(** The birthday falls on [today] or on one of the seven days after it:
    month and day are those of [today + k days] for some [k] from 0 to 7. *)
Definition within_next_week (today dob : date) : Prop :=
  ∃ k d, 0 ≤ k ≤ 7 ∧ datetime.add_days today k = Ok d
         ∧ datetime.month dob = datetime.month d
         ∧ datetime.day dob = datetime.day d.

End spec.

(* ===================================================================== *)
(** ** Sample data *)
(* ===================================================================== *)

Module sample.

Definition ann : Contact.t :=
  Contact.mk 1 "Ann" "Smith" "ann@example.org" "555-0101"
    (mkdate 1990 1 30) "met at work" None.
Definition bob : Contact.t :=
  Contact.mk 2 "Bob" "Jones" "bob@example.org" "555-0102"
    (mkdate 1985 2 5) "plays chess" None.
Definition cy : Contact.t :=
  Contact.mk 3 "Cy" "Brown" "cy@example.org" "555-0103"
    (mkdate 1970 1 20) "" (Some 7).
Definition dee : Contact.t :=
  Contact.mk 4 "Dee" "Green" "dee@example.org" "555-0104"
    (mkdate 2001 12 31) "neighbour" None.
Definition eve : Contact.t :=
  Contact.mk 5 "Eve" "White" "eve@example.org" "555-0105"
    (mkdate 1999 2 4) "cousin" (Some 7).

(** A contact born on a leap day, and a store that holds it. *)
Definition feb : Contact.t :=
  Contact.mk 6 "Feb" "Black" "feb@example.org" "555-0106"
    (mkdate 1992 2 29) "" None.
Definition leap_store : Session := mkSession [ann; feb] 7 true.

(** Five seeded contacts. *)
Definition seeded : Session := mkSession [ann; bob; cy; dee; eve] 6 true.

Definition new_ann : ContactIn.t :=
  ContactIn.mk "Ann" "Smith" "ann@example.org" "555-0101"
    (Some (mkdate 1990 1 30)) "met at work".

Definition rename_bob : ContactUpdate.t :=
  ContactUpdate.mk (Some "Robert") None None None None None.

Definition no_change : ContactUpdate.t :=
  ContactUpdate.mk None None None None None None.

(** Notes of 600 characters: within the column, beyond the input bound. *)
Definition long_notes : string :=
  string_of_list_ascii (replicate 600 "x"%char).

Definition verbose_cy : Contact.t :=
  Contact.mk 3 "Cy" "Brown" "cy@example.org" "555-0103"
    (mkdate 1970 1 20) long_notes (Some 7).

(** Keyword arguments for [UserIn]. *)
Definition user_data (username email password : string)
  : gmap string pyval :=
  list_to_map
    [ ("username", PyStr username); ("email", PyStr email);
      ("password", PyStr password) ].

(** Keyword arguments for [ContactIn]. *)
Definition ann_data (date_of_birth notes : string) : gmap string pyval :=
  list_to_map
    [ ("first_name", PyStr "Ann"); ("last_name", PyStr "Smith");
      ("email", PyStr "ann@example.org"); ("phone_number", PyStr "555-0101");
      ("date_of_birth", PyStr date_of_birth);
      ("additional_data", PyStr notes) ].

End sample.

(* ===================================================================== *)
(** ** The store operations, one by one *)
(* ===================================================================== *)

Section Queries.

Implicit Types (db : Session) (q : Query) (c : Contact.t).

Lemma all_query_page db (p : Contact.t → bool) (skip lim : Z) :
  0 ≤ skip → 0 ≤ lim →
  all (orm.limit lim (offset skip (filter_ p (query db))))
  = Ok (take (Z.to_nat lim) (drop (Z.to_nat skip)
          (filter (λ c, p c) (contacts db)))).
Proof.
  intros Hs Hl. unfold all. simpl.
  destruct (Z.ltb_spec skip 0); [lia|].
  destruct (Z.ltb_spec lim 0); [lia|].
  reflexivity.
Qed.

Lemma first_by_id db (i : Z) :
  first (filter_ (λ c, Contact.id c =? i) (query db))
  = Ok (head (filter (λ c, Contact.id c = i) (contacts db))).
Proof.
  unfold first, all. simpl. unfold selected. simpl.
  f_equal.
  rewrite (list_filter_iff _ (λ c, Contact.id c = i)).
  - by destruct (filter _ _).
  - intros c. simpl. by rewrite Is_true_true, Z.eqb_eq.
Qed.

Lemma head_filter_None {A} (P : A → Prop) `{∀ x, Decision (P x)} (l : list A) :
  head (filter P l) = None ↔ ∀ x, x ∈ l → ¬ P x.
Proof.
  rewrite head_None. split.
  - intros Hnil x Hx HP. by eapply filter_nil_not_elem_of.
  - intros Hall. induction l as [|y l IH]; [done|].
    rewrite filter_cons_False by (apply Hall; left).
    apply IH. intros x Hx. apply Hall. by right.
Qed.

Lemma head_filter_Some {A} (P : A → Prop) `{∀ x, Decision (P x)} (l : list A) x :
  head (filter P l) = Some x → x ∈ l ∧ P x.
Proof.
  intros Hh. apply head_Some_elem_of in Hh.
  by apply list_elem_of_filter in Hh as [? ?].
Qed.

End Queries.

(* ===================================================================== *)
(** ** Listing, lookup and removal *)
(* ===================================================================== *)

(** C9. For non-negative [skip] and [limit], [get_contacts] returns the
    stored contacts in store order, without the first [skip] of them and cut
    after [limit]: a contiguous slice, whatever the owner of each row. *)
Theorem get_contacts_is_slice (skip lim : Z) (db : Session) :
  0 ≤ skip → 0 ≤ lim →
  get_contacts skip lim db
  = Ok (take (Z.to_nat lim) (drop (Z.to_nat skip) (contacts db))).
Proof.
  intros Hs Hl. unfold get_contacts, all. simpl.
  destruct (Z.ltb_spec skip 0); [lia|].
  destruct (Z.ltb_spec lim 0); [lia|].
  unfold selected. simpl. do 3 f_equal.
  induction (contacts db) as [|c l IH]; [done|].
  rewrite filter_cons_True by done. by rewrite IH.
Qed.

(** Over the five seeded contacts, [skip=2, limit=2] gives the third and
    the fourth, in insertion order. *)
Lemma get_contacts_seeded_page :
  0 ≤ 2 ∧ 0 ≤ 2
  ∧ get_contacts 2 2 sample.seeded = Ok [sample.cy; sample.dee].
Proof.
  split; [lia|]. split; [lia|].
  rewrite (get_contacts_is_slice 2 2 sample.seeded); [reflexivity|lia|lia].
Defined.

Lemma get_contact_eq (contact_id : Z) (db : Session) :
  get_contact contact_id db
  = Ok (head (filter (λ c, Contact.id c = contact_id) (contacts db))).
Proof. apply first_by_id. Qed.

Lemma get_contact_absent (contact_id : Z) (db : Session) :
  contact_id ∉ map Contact.id (contacts db) →
  get_contact contact_id db = Ok None.
Proof.
  intros Hno. rewrite get_contact_eq. f_equal.
  apply head_filter_None. intros c Hc Hid. apply Hno.
  apply list_elem_of_fmap. by exists c.
Qed.

(** C5. [remove_contact] raises nothing. On an id that a stored contact has
    it returns that contact, the first in the store with the id; on an id
    that no stored contact has it returns [None] and leaves the store as it
    was. In the store it leaves, no row has the id, [get_contact] on the id
    gives [None], and the rows of every other id are kept, in their
    order. *)
Theorem remove_contact_spec (contact_id : Z) (db : Session) :
  ∃ r db',
    remove_contact contact_id db = Ok (r, db')
    ∧ r = head (filter (λ c, Contact.id c = contact_id) (contacts db))
    ∧ (contact_id ∈ map Contact.id (contacts db) →
       ∃ c, r = Some c ∧ c ∈ contacts db ∧ Contact.id c = contact_id)
    ∧ (contact_id ∉ map Contact.id (contacts db) → r = None ∧ db' = db)
    ∧ contacts db' = filter (λ x, Contact.id x ≠ contact_id) (contacts db)
    ∧ (contact_id ∉ map Contact.id (contacts db'))
    ∧ get_contact contact_id db' = Ok None.
Proof.
  assert (∀ l : list Contact.t,
            contact_id ∉ map Contact.id
              (filter (λ x, Contact.id x ≠ contact_id) l)) as Hgone.
  { intros l Hin. apply list_elem_of_fmap in Hin as (x & Hid & Hx).
    by apply list_elem_of_filter in Hx as [? ?]. }
  unfold remove_contact. rewrite first_by_id.
  destruct (head _) as [c|] eqn:Hhead; simpl.
  - pose proof (head_filter_Some _ _ _ Hhead) as [Hin Hid].
    exists (Some c), (delete_commit db c).
    assert (contacts (delete_commit db c)
            = filter (λ x, Contact.id x ≠ contact_id) (contacts db)) as Hrows.
    { unfold delete_commit. simpl. by rewrite Hid. }
    split; [done|]. split; [done|]. split; [by exists c|].
    split.
    { intros Hno. destruct Hno. apply list_elem_of_fmap. by exists c. }
    split; [done|]. rewrite Hrows.
    split; [done|]. apply get_contact_absent. by rewrite Hrows.
  - pose proof (proj1 (head_filter_None _ _) Hhead) as Hnone.
    assert (contact_id ∉ map Contact.id (contacts db)) as Hno.
    { intros Hin. apply list_elem_of_fmap in Hin as (x & Hid & Hx).
      by apply (Hnone x). }
    assert (filter (λ x, Contact.id x ≠ contact_id) (contacts db)
            = contacts db) as Hsame.
    { clear Hhead Hno. induction (contacts db) as [|x l IH]; [done|].
      rewrite filter_cons_True by (intros Hid; apply (Hnone x); [left|done]).
      f_equal. apply IH. intros y Hy. apply Hnone. by right. }
    exists None, db.
    split; [done|]. split; [done|]. split; [done|]. split; [done|].
    split; [done|]. split; [done|]. by apply get_contact_absent.
Qed.

(** On the seeded store, id 2 is stored and its removal returns the second
    contact; id 9 is not stored and its removal returns [None]. *)
Lemma remove_contact_spec_seeded :
  2 ∈ map Contact.id (contacts sample.seeded)
  ∧ (9 ∉ map Contact.id (contacts sample.seeded))
  ∧ (∃ db',
       remove_contact 2 sample.seeded = Ok (Some sample.bob, db')
       ∧ contacts db' = [sample.ann; sample.cy; sample.dee; sample.eve]
       ∧ get_contact 2 db' = Ok None)
  ∧ remove_contact 9 sample.seeded = Ok (None, sample.seeded).
Proof.
  assert (2 ∈ map Contact.id (contacts sample.seeded)) as Hin.
  { vm_compute. do 1 right. left. }
  assert (9 ∉ map Contact.id (contacts sample.seeded)) as Hout.
  { apply (bool_decide_unpack
             (9 ∉ map Contact.id (contacts sample.seeded))).
    vm_compute. exact I. }
  split; [exact Hin|]. split; [exact Hout|]. split.
  - destruct (remove_contact_spec 2 sample.seeded)
      as (r & db' & Hrm & Hr & _ & _ & Hrows & _ & Hget).
    exists db'. rewrite Hrm, Hr, Hrows.
    split; [reflexivity|]. split; [reflexivity|]. exact Hget.
  - destruct (remove_contact_spec 9 sample.seeded)
      as (r & db' & Hrm & _ & _ & Habsent & _).
    destruct (Habsent Hout) as [-> ->]. exact Hrm.
Defined.

(** Removing the second of the seeded contacts. *)
Example remove_contact_seeded :
  ∃ db',
    remove_contact 2 sample.seeded = Ok (Some sample.bob, db')
    ∧ contacts db' = [sample.ann; sample.cy; sample.dee; sample.eve]
    ∧ get_contact 2 db' = Ok None
    ∧ remove_contact 2 db' = Ok (None, db').
Proof. eexists. repeat split; vm_compute; reflexivity. Qed.

(** C6. On an id that no stored contact has, [get_contact],
    [remove_contact] and [update_contact] all return [None]; none of them
    raises, and the two writers leave the store untouched. *)
Theorem absent_id_is_none (contact_id : Z) (body : ContactUpdate.t)
    (db : Session) :
  contact_id ∉ map Contact.id (contacts db) →
  get_contact contact_id db = Ok None
  ∧ remove_contact contact_id db = Ok (None, db)
  ∧ update_contact contact_id body db = Ok (None, db).
Proof.
  intros Hno. pose proof (get_contact_absent _ _ Hno) as Hget.
  split; [done|]. unfold remove_contact, update_contact.
  unfold get_contact in Hget. rewrite Hget. done.
Qed.

Lemma absent_id_is_none_seeded :
(9 ∉ map Contact.id (contacts sample.seeded))
  ∧ get_contact 9 sample.seeded = Ok None
  ∧ remove_contact 9 sample.seeded = Ok (None, sample.seeded)
  ∧ update_contact 9 sample.rename_bob sample.seeded
    = Ok (None, sample.seeded).
Proof.
  assert (9 ∉ map Contact.id (contacts sample.seeded)) as Hno.
  { vm_compute. intros H. repeat (apply elem_of_cons in H as [H|H]; [lia|]).
    by apply not_elem_of_nil in H. }
  split; [exact Hno|].
  exact (absent_id_is_none 9 sample.rename_bob sample.seeded Hno).
Defined.

(* ===================================================================== *)
(** ** Creation and update *)
(* ===================================================================== *)

(** C1. [create_contact] never inserts anything: the keyword [name] it
    passes to the constructor of [Contact] is not an attribute of the
    class, and the constructor raises [TypeError] before the session is
    touched. *)
Theorem create_contact_raises (body : ContactIn.t) (db : Session) :
  create_contact body db
  = Raise (TypeError "'name' is an invalid keyword argument for Contact").
Proof. reflexivity. Qed.

(** C2. [update_contact] on the id of a stored contact raises
    [AttributeError]: its first test reads [body.name], which is not a
    field of [ContactUpdate]. No field is overwritten and nothing is
    returned. *)
Theorem update_contact_present_raises (contact_id : Z)
    (body : ContactUpdate.t) (db : Session) (c : Contact.t) :
  get_contact contact_id db = Ok (Some c) →
  update_contact contact_id body db
  = Raise (AttributeError "'ContactUpdate' object has no attribute 'name'").
Proof.
  unfold get_contact, update_contact. intros ->. reflexivity.
Qed.

Lemma update_contact_seeded_raises :
  get_contact 2 sample.seeded = Ok (Some sample.bob)
  ∧ update_contact 2 sample.rename_bob sample.seeded
    = Raise (AttributeError "'ContactUpdate' object has no attribute 'name'")
  ∧ update_contact 2 sample.no_change sample.seeded
    = Raise (AttributeError "'ContactUpdate' object has no attribute 'name'").
Proof.
  assert (get_contact 2 sample.seeded = Ok (Some sample.bob)) as Hget
    by (vm_compute; reflexivity).
  split; [exact Hget|]. split.
  - exact (update_contact_present_raises 2 sample.rename_bob _ _ Hget).
  - exact (update_contact_present_raises 2 sample.no_change _ _ Hget).
Defined.

(* ===================================================================== *)
(** ** Validation shapes *)
(* ===================================================================== *)

Lemma getter_dict_lookups (obj : Contact.t) :
  ContactOut.getter_dict obj !! "first_name" = Some (PyStr (Contact.first_name obj))
  ∧ ContactOut.getter_dict obj !! "last_name" = Some (PyStr (Contact.last_name obj))
  ∧ ContactOut.getter_dict obj !! "email" = Some (PyStr (Contact.email obj))
  ∧ ContactOut.getter_dict obj !! "phone_number"
    = Some (PyStr (Contact.phone_number obj))
  ∧ ContactOut.getter_dict obj !! "date_of_birth"
    = Some (PyDate (Contact.date_of_birth obj))
  ∧ ContactOut.getter_dict obj !! "additional_data"
    = Some (PyStr (Contact.additional_data obj)).
Proof. repeat split; reflexivity. Qed.

(** *** Strings as character lists *)

Lemma length_chars (s : string) :
  length (list_ascii_of_string s) = String.length s.
Proof. induction s as [|c s IH]; simpl; [done|]. by rewrite IH. Qed.

Lemma chars_append (s t : string) :
  list_ascii_of_string (s +:+ t)
  = list_ascii_of_string s ++ list_ascii_of_string t.
Proof. induction s as [|c s IH]; simpl; [done|]. by rewrite IH. Qed.

Lemma chars_inj (s t : string) :
  list_ascii_of_string s = list_ascii_of_string t → s = t.
Proof.
  intros H. rewrite <- (string_of_list_ascii_of_string s),
    <- (string_of_list_ascii_of_string t). by rewrite H.
Qed.

(** *** Dates in ISO format *)

Section IsoFormat.

Import datetime.

Lemma digit_value_char (k : Z) : digit_value (digit_char k) = Some (k mod 10).
Proof.
  pose proof (Z.mod_pos_bound k 10 ltac:(lia)) as Hk.
  unfold digit_char.
  assert (k mod 10 = 0 ∨ k mod 10 = 1 ∨ k mod 10 = 2 ∨ k mod 10 = 3
          ∨ k mod 10 = 4 ∨ k mod 10 = 5 ∨ k mod 10 = 6 ∨ k mod 10 = 7
          ∨ k mod 10 = 8 ∨ k mod 10 = 9) as Hcases by lia.
  repeat (destruct Hcases as [->|Hcases]; [reflexivity|]).
  by rewrite Hcases.
Qed.

Lemma digit_char_value (c : ascii) (k : Z) :
  digit_value c = Some k → c = digit_char k ∧ 0 ≤ k ≤ 9.
Proof.
  unfold digit_value, digit_char. intros H.
  destruct (Z.leb_spec 0 (Z.of_N (N_of_ascii c) - 48)); [|done].
  destruct (Z.leb_spec (Z.of_N (N_of_ascii c) - 48) 9); [|done].
  injection H as <-. split; [|lia].
  rewrite Z.mod_small by lia.
  replace (Z.to_N _) with (N_of_ascii c) by lia.
  by rewrite ascii_N_embedding.
Qed.

Lemma digit_char_mod (a b : Z) :
  a mod 10 = b mod 10 → digit_char a = digit_char b.
Proof. unfold digit_char. by intros ->. Qed.

Lemma isoformat_chars (d : date) :
  list_ascii_of_string (isoformat d)
  = [ digit_char (year d / 10 / 10 / 10); digit_char (year d / 10 / 10);
      digit_char (year d / 10); digit_char (year d); "-"%char;
      digit_char (month d / 10); digit_char (month d); "-"%char;
      digit_char (day d / 10); digit_char (day d) ].
Proof. unfold isoformat. by rewrite list_ascii_of_string_of_list_ascii. Qed.

Lemma days_in_month_le (y m : Z) : days_in_month y m ≤ 31.
Proof.
  unfold days_in_month. destruct (_ && _); [lia|].
  unfold table, DAYS_IN_MONTH.
  destruct (Z.to_nat (m - 1)) as [|[|[|[|[|[|[|[|[|[|[|[|[|n]]]]]]]]]]]]];
    simpl; lia.
Qed.

Lemma valid_bounds (d : date) :
  valid d →
  1 ≤ year d ≤ 9999 ∧ 1 ≤ month d ≤ 12 ∧ 1 ≤ day d ≤ 31.
Proof.
  unfold valid, check_date_fields, MINYEAR, MAXYEAR. intros H.
  repeat (apply andb_prop_elim in H as [H ?]).
  repeat match goal with
         | Hb : Is_true (_ <=? _) |- _ => apply Is_true_true, Z.leb_le in Hb
         end.
  pose proof (days_in_month_le (year d) (month d)). lia.
Qed.

Lemma new_cases (y m d : Z) :
  if check_date_fields y m d then new y m d = Ok (mkdate y m d)
  else ∃ msg, new y m d = Raise (ValueError msg).
Proof.
  unfold new, check_date_fields.
  destruct (MINYEAR <=? y), (y <=? MAXYEAR), (1 <=? m), (m <=? 12),
    (1 <=? d), (d <=? days_in_month y m); simpl; eauto.
Qed.

Lemma digit_char_not (k : Z) (c : ascii) :
  digit_value c = None → Ascii.eqb (digit_char k) c = false.
Proof.
  intros Hc. destruct (Ascii.eqb_spec (digit_char k) c) as [<-|]; [|done].
  by rewrite digit_value_char in Hc.
Qed.

Lemma utf8_char_digit (k : Z) : utf8_char (digit_char k) = [digit_char k].
Proof.
  unfold utf8_char, digit_char.
  pose proof (Z.mod_pos_bound k 10 ltac:(lia)).
  rewrite N_ascii_embedding by lia.
  destruct (N.ltb_spec (Z.to_N (48 + k mod 10)) 128); [done|lia].
Qed.

Lemma utf8_isoformat (d : date) :
  utf8 (isoformat d) = list_ascii_of_string (isoformat d).
Proof.
  unfold utf8. rewrite isoformat_chars.
  cbn [flat_map app]. by rewrite !utf8_char_digit.
Qed.

Lemma basic_format_chars (d : date) :
  list_ascii_of_string (basic_format d)
  = [ digit_char (year d / 10 / 10 / 10); digit_char (year d / 10 / 10);
      digit_char (year d / 10); digit_char (year d);
      digit_char (month d / 10); digit_char (month d);
      digit_char (day d / 10); digit_char (day d) ].
Proof. unfold basic_format. by rewrite list_ascii_of_string_of_list_ascii. Qed.

Lemma utf8_basic_format (d : date) :
  utf8 (basic_format d) = list_ascii_of_string (basic_format d).
Proof.
  unfold utf8. rewrite basic_format_chars.
  cbn [flat_map app]. by rewrite !utf8_char_digit.
Qed.

Lemma digits_value (y m d : Z) :
  0 ≤ y ≤ 9999 → 0 ≤ m ≤ 99 → 0 ≤ d ≤ 99 →
  (((0 * 10 + (y / 10 / 10 / 10) mod 10) * 10 + (y / 10 / 10) mod 10) * 10
   + (y / 10) mod 10) * 10 + y mod 10 = y
  ∧ (0 * 10 + (m / 10) mod 10) * 10 + m mod 10 = m
  ∧ (0 * 10 + (d / 10) mod 10) * 10 + d mod 10 = d.
Proof. intros. repeat split; Z.div_mod_to_equations; lia. Qed.

Lemma fromisoformat_isoformat (d : date) :
  valid d → fromisoformat (isoformat d) = Ok d.
Proof.
  intros Hv. pose proof (valid_bounds d Hv) as (Hy & Hm & Hd).
  unfold fromisoformat. rewrite utf8_isoformat, isoformat_chars.
  cbn [length Nat.eqb orb]. unfold parse_isoformat_date.
  cbn [parse_digits]. rewrite !digit_value_char.
  cbn [mbind option_bind at_char tail]. change (Ascii.eqb "-" "-") with true.
  cbv iota. cbn [at_char]. rewrite (digit_char_not _ "W") by reflexivity.
  cbn [parse_digits]. rewrite !digit_value_char.
  cbn [mbind option_bind expect_separator at_char tail].
  change (Ascii.eqb "-" "-") with true. cbv iota.
  cbn [mbind option_bind parse_digits]. rewrite !digit_value_char.
  cbn [mbind option_bind].
  destruct (digits_value (year d) (month d) (day d)) as (-> & -> & ->);
    [lia..|].
  pose proof (new_cases (year d) (month d) (day d)) as Hnew.
  unfold valid in Hv. apply Is_true_true in Hv. rewrite Hv in Hnew.
  rewrite Hnew. by destruct d.
Qed.

(** The eight digits [YYYYMMDD] of a date are read as that date too. *)
Lemma fromisoformat_basic_format (d : date) :
  valid d → fromisoformat (basic_format d) = Ok d.
Proof.
  intros Hv. pose proof (valid_bounds d Hv) as (Hy & Hm & Hd).
  unfold fromisoformat. rewrite utf8_basic_format, basic_format_chars.
  cbn [length Nat.eqb orb]. unfold parse_isoformat_date.
  cbn [parse_digits]. rewrite !digit_value_char.
  cbn [mbind option_bind at_char]. rewrite (digit_char_not _ "-") by reflexivity.
  cbv iota. cbn [at_char]. rewrite (digit_char_not _ "W") by reflexivity.
  cbn [parse_digits]. rewrite !digit_value_char.
  cbn [mbind option_bind expect_separator parse_digits].
  rewrite !digit_value_char. cbn [mbind option_bind].
  destruct (digits_value (year d) (month d) (day d)) as (-> & -> & ->);
    [lia..|].
  pose proof (new_cases (year d) (month d) (day d)) as Hnew.
  unfold valid in Hv. apply Is_true_true in Hv. rewrite Hv in Hnew.
  rewrite Hnew. by destruct d.
Qed.

Lemma basic_format_not_isoformat (d d' : date) :
  basic_format d ≠ isoformat d'.
Proof.
  intros Heq. apply (f_equal String.length) in Heq.
  rewrite <- !length_chars, basic_format_chars, isoformat_chars in Heq.
  discriminate.
Qed.

Lemma fromisoformat_raises (s : string) (e : exn) :
  fromisoformat s = Raise e → ∃ msg, e = ValueError msg.
Proof.
  unfold fromisoformat, invalid_isoformat.
  destruct (_ || _); [|intros [= <-]; eauto].
  destruct (parse_isoformat_date _ _) as [[[y m] d]|]; [|intros [= <-]; eauto].
  pose proof (new_cases y m d) as Hnew.
  destruct (check_date_fields _ _ _); [by rewrite Hnew|].
  destruct Hnew as [msg ->]. intros [= <-]. eauto.
Qed.

(** A string that is not of 7, 8 or 10 bytes is not read. *)
Lemma fromisoformat_length (s : string) (d : date) :
  fromisoformat s = Ok d →
  length (utf8 s) = 7%nat ∨ length (utf8 s) = 8%nat
  ∨ length (utf8 s) = 10%nat.
Proof.
  unfold fromisoformat.
  destruct (Nat.eqb_spec (length (utf8 s)) 7); [by left|].
  destruct (Nat.eqb_spec (length (utf8 s)) 8); [by right; left|].
  destruct (Nat.eqb_spec (length (utf8 s)) 10); [by right; right|].
  done.
Qed.

End IsoFormat.

(** *** The shapes, field by field *)

Lemma len_le_spec (s : string) (n : nat) :
  len_le s n = true ↔ (String.length s ≤ n)%nat.
Proof. unfold len_le. apply Nat.leb_le. Qed.

Lemma str_max_length_str (n : nat) (s : string) :
  str_max_length n (Some (PyStr s))
  = if len_le s n then inl s
    else inr ("ensure this value has at most " +:+ pretty (N.of_nat n)
              +:+ " characters").
Proof. reflexivity. Qed.

Lemma ContactIn_validate_cases (data : gmap string pyval) :
  match ContactIn.validate data with
  | Ok b =>
      str_max_length ContactIn.first_name_max (data !! "first_name")
      = inl (ContactIn.first_name b)
      ∧ str_max_length ContactIn.last_name_max (data !! "last_name")
        = inl (ContactIn.last_name b)
      ∧ str_max_length ContactIn.email_max (data !! "email")
        = inl (ContactIn.email b)
      ∧ str_max_length ContactIn.phone_number_max (data !! "phone_number")
        = inl (ContactIn.phone_number b)
      ∧ optional_date ContactIn.check_date_format (data !! "date_of_birth")
        = inl (ContactIn.date_of_birth b)
      ∧ str_max_length ContactIn.additional_data_max (data !! "additional_data")
        = inl (ContactIn.additional_data b)
  | Raise e =>
      ∃ errors,
        e = ValidationError errors ∧ errors ≠ []
        ∧ errors
          = field_errors "first_name"
              (str_max_length ContactIn.first_name_max (data !! "first_name"))
            ++ field_errors "last_name"
                 (str_max_length ContactIn.last_name_max (data !! "last_name"))
            ++ field_errors "email"
                 (str_max_length ContactIn.email_max (data !! "email"))
            ++ field_errors "phone_number"
                 (str_max_length ContactIn.phone_number_max
                    (data !! "phone_number"))
            ++ field_errors "date_of_birth"
                 (optional_date ContactIn.check_date_format
                    (data !! "date_of_birth"))
            ++ field_errors "additional_data"
                 (str_max_length ContactIn.additional_data_max
                    (data !! "additional_data"))
  end.
Proof.
  unfold ContactIn.validate.
  destruct (str_max_length _ (data !! "first_name")),
    (str_max_length _ (data !! "last_name")),
    (str_max_length _ (data !! "email")),
    (str_max_length _ (data !! "phone_number")),
    (optional_date _ (data !! "date_of_birth")),
    (str_max_length _ (data !! "additional_data")); simpl; try done;
    (eexists; split; [reflexivity|]; split; done).
Qed.

Lemma ContactUpdate_validate_cases (data : gmap string pyval) :
  match ContactUpdate.validate data with
  | Ok b =>
      optional_date ContactUpdate.check_date_format (data !! "date_of_birth")
      = inl (ContactUpdate.date_of_birth b)
  | Raise e =>
      ∃ errors,
        e = ValidationError errors ∧ errors ≠ []
        ∧ errors
          = field_errors "first_name" (optional_str (data !! "first_name"))
            ++ field_errors "lastname" (optional_str (data !! "lastname"))
            ++ field_errors "email" (optional_str (data !! "email"))
            ++ field_errors "phone_number"
                 (optional_str (data !! "phone_number"))
            ++ field_errors "date_of_birth"
                 (optional_date ContactUpdate.check_date_format
                    (data !! "date_of_birth"))
            ++ field_errors "additional_data"
                 (optional_str (data !! "additional_data"))
  end.
Proof.
  unfold ContactUpdate.validate.
  destruct (optional_str (data !! "first_name")),
    (optional_str (data !! "lastname")),
    (optional_str (data !! "email")),
    (optional_str (data !! "phone_number")),
    (optional_date _ (data !! "date_of_birth")),
    (optional_str (data !! "additional_data")); simpl; try done;
    (eexists; split; [reflexivity|]; split; done).
Qed.

Lemma elem_of_field_errors {A} (loc loc' msg : string) (r : field A) :
  (loc', msg) ∈ field_errors loc r ↔ loc' = loc ∧ r = inr msg.
Proof.
  destruct r as [a|m]; simpl.
  - rewrite elem_of_nil. split; [done|]. by intros [_ [=]].
  - rewrite list_elem_of_singleton. split.
    + by intros [= -> ->].
    + by intros [-> [= ->]].
Qed.

Lemma str_max_length_rejects (n : nat) (s : string) :
  (∃ msg, str_max_length n (Some (PyStr s)) = inr msg)
  ↔ (n < String.length s)%nat.
Proof.
  rewrite str_max_length_str. destruct (len_le s n) eqn:Hle.
  - apply len_le_spec in Hle. split; [by intros [? [=]]|lia].
  - split; [|eauto]. intros _.
    destruct (Nat.le_gt_cases (String.length s) n) as [Hn|]; [|done].
    apply len_le_spec in Hn. congruence.
Qed.

Lemma str_max_length_accepts (n : nat) (s : string) :
  (String.length s ≤ n)%nat → str_max_length n (Some (PyStr s)) = inl s.
Proof.
  intros Hle. rewrite str_max_length_str.
  by rewrite (proj2 (len_le_spec s n)).
Qed.

(** C10. A stored contact whose notes are longer than 500 characters, and
    within the 750 of the column, cannot be returned through [ContactOut]:
    the column takes the notes, and [ContactOut.from_orm] raises a
    validation error on the [additional_data] field, whose bound of 500
    the shape inherits from [ContactIn]. *)
Theorem ContactOut_rejects_long_notes (obj : Contact.t) :
  (500 < String.length (Contact.additional_data obj) ≤ 750)%nat →
  Contact.text_column "additional_data" Contact.additional_data_size
    (Some (PyStr (Contact.additional_data obj)))
  = Ok (Contact.additional_data obj)
  ∧ ∃ errors,
      ContactOut.from_orm obj = Raise (ValidationError errors)
      ∧ ("additional_data", "ensure this value has at most 500 characters")
        ∈ errors.
Proof.
  intros [Hlo Hhi]. split.
  { unfold Contact.text_column.
    by rewrite (proj2 (len_le_spec _ Contact.additional_data_size)). }
  pose proof (getter_dict_lookups obj) as (_ & _ & _ & _ & _ & Had).
  pose proof (ContactIn_validate_cases (ContactOut.getter_dict obj)) as Hcases.
  assert (str_max_length ContactIn.additional_data_max
            (ContactOut.getter_dict obj !! "additional_data")
          = inr "ensure this value has at most 500 characters") as Hfield.
  { rewrite Had, str_max_length_str.
    destruct (len_le _ _) eqn:Hle; [|reflexivity].
    apply len_le_spec in Hle. unfold ContactIn.additional_data_max in Hle. lia. }
  unfold ContactOut.from_orm.
  destruct (ContactIn.validate _) as [b|e].
  - destruct Hcases as (_ & _ & _ & _ & _ & Hok). congruence.
  - destruct Hcases as (errors & -> & _ & ->). eexists. split; [reflexivity|].
    rewrite !elem_of_app, !elem_of_field_errors. rewrite Hfield.
    do 5 right. done.
Qed.

Lemma ContactOut_rejects_verbose_cy :
  (500 < String.length (Contact.additional_data sample.verbose_cy) ≤ 750)%nat
  ∧ Contact.storable sample.verbose_cy = true
  ∧ is_ok (ContactOut.from_orm sample.verbose_cy) = false.
Proof.
  assert (500 < String.length (Contact.additional_data sample.verbose_cy)
          ≤ 750)%nat as Hlen by (vm_compute; lia).
  split; [exact Hlen|]. split; [vm_compute; reflexivity|].
  destruct (ContactOut_rejects_long_notes sample.verbose_cy Hlen)
    as (_ & errors & -> & _).
  reflexivity.
Defined.

(** C4, as the code has it. On keyword arguments that give a string for
    each of the five text fields and an acceptable date, [ContactIn] accepts
    exactly when first name, last name, email, phone and notes have at most
    25, 50, 100, 15 and 500 characters; otherwise it raises a validation
    error that names exactly the fields that are too long. The store is not
    an argument of the validation. *)
Theorem ContactIn_length_bounds (data : gmap string pyval)
    (fn ln em ph ad : string) (dob : option date) :
  data !! "first_name" = Some (PyStr fn) →
  data !! "last_name" = Some (PyStr ln) →
  data !! "email" = Some (PyStr em) →
  data !! "phone_number" = Some (PyStr ph) →
  data !! "additional_data" = Some (PyStr ad) →
  optional_date ContactIn.check_date_format (data !! "date_of_birth") = inl dob →
  let within :=
    (String.length fn ≤ 25 ∧ String.length ln ≤ 50 ∧ String.length em ≤ 100
     ∧ String.length ph ≤ 15 ∧ String.length ad ≤ 500)%nat in
  (within → ContactIn.validate data = Ok (ContactIn.mk fn ln em ph dob ad))
  ∧ (¬ within →
     ∃ errors,
       ContactIn.validate data = Raise (ValidationError errors)
       ∧ ((∃ msg, ("first_name", msg) ∈ errors) ↔ (25 < String.length fn)%nat)
       ∧ ((∃ msg, ("last_name", msg) ∈ errors) ↔ (50 < String.length ln)%nat)
       ∧ ((∃ msg, ("email", msg) ∈ errors) ↔ (100 < String.length em)%nat)
       ∧ ((∃ msg, ("phone_number", msg) ∈ errors)
          ↔ (15 < String.length ph)%nat)
       ∧ ((∃ msg, ("additional_data", msg) ∈ errors)
          ↔ (500 < String.length ad)%nat)).
Proof.
  intros Hfn Hln Hem Hph Had Hdob within.
  pose proof (ContactIn_validate_cases data) as Hcases.
  rewrite Hfn, Hln, Hem, Hph, Had, Hdob in Hcases.
  unfold ContactIn.first_name_max, ContactIn.last_name_max,
    ContactIn.email_max, ContactIn.phone_number_max,
    ContactIn.additional_data_max in Hcases.
  split.
  - intros (H1 & H2 & H3 & H4 & H5).
    rewrite !str_max_length_accepts in Hcases by done.
    destruct (ContactIn.validate data) as [b|e].
    + destruct Hcases as (? & ? & ? & ? & ? & ?). destruct b. simpl in *.
      congruence.
    + by destruct Hcases as (errors & _ & Hne & ->).
  - intros Hout. destruct (ContactIn.validate data) as [b|e].
    + destruct Hcases as (K1 & K2 & K3 & K4 & _ & K5). exfalso. apply Hout.
      unfold within.
      repeat split; apply Nat.le_ngt; intros Hgt;
        apply str_max_length_rejects in Hgt as [msg Hmsg]; congruence.
    + destruct Hcases as (errors & -> & _ & ->). eexists.
      split; [reflexivity|].
      repeat split;
        try (intros [msg Hin]; rewrite !elem_of_app, !elem_of_field_errors in Hin;
             apply str_max_length_rejects;
             intuition (try discriminate; eauto));
        (intros Hgt; apply str_max_length_rejects in Hgt as [msg Hmsg];
         exists msg; rewrite !elem_of_app, !elem_of_field_errors;
         intuition (try discriminate; eauto)).
Qed.

Lemma ContactIn_accepts_ann :
  let data := sample.ann_data "1990-01-30" "met at work" in
  data !! "first_name" = Some (PyStr "Ann")
  ∧ data !! "last_name" = Some (PyStr "Smith")
  ∧ data !! "email" = Some (PyStr "ann@example.org")
  ∧ data !! "phone_number" = Some (PyStr "555-0101")
  ∧ data !! "additional_data" = Some (PyStr "met at work")
  ∧ optional_date ContactIn.check_date_format (data !! "date_of_birth")
    = inl (Some (mkdate 1990 1 30))
  ∧ ContactIn.validate data = Ok sample.new_ann.
Proof.
  intros data.
  assert (optional_date ContactIn.check_date_format (data !! "date_of_birth")
          = inl (Some (mkdate 1990 1 30))) as Hdob by (vm_compute; reflexivity).
  do 5 (split; [reflexivity|]). split; [exact Hdob|].
  destruct (ContactIn_length_bounds data "Ann" "Smith" "ann@example.org"
              "555-0101" "met at work" (Some (mkdate 1990 1 30))
              eq_refl eq_refl eq_refl eq_refl eq_refl Hdob) as [Hacc _].
  apply Hacc. simpl. lia.
Defined.

(** C4, as stated, fails: notes of 600 characters respect the bound of 750
    that the claim gives and are rejected by [ContactIn]. *)
Lemma ContactIn_rejects_notes_within_750 :
  let data := sample.ann_data "1990-01-30" sample.long_notes in
  ¬ (is_ok (ContactIn.validate data) = true
     ↔ (String.length "Ann" ≤ 25 ∧ String.length "Smith" ≤ 50
        ∧ String.length "ann@example.org" ≤ 100
        ∧ String.length "555-0101" ≤ 15
        ∧ String.length sample.long_notes ≤ 750)%nat).
Proof.
  intros data [_ Hacc].
  assert (is_ok (ContactIn.validate data) = false) as Hrej
    by (vm_compute; reflexivity).
  rewrite Hacc in Hrej; [discriminate|].
  assert (String.length sample.long_notes = 600%nat) as ->
    by (vm_compute; reflexivity).
  simpl. lia.
Qed.

Lemma check_date_format_same (v : pyval) :
  ContactUpdate.check_date_format v = ContactIn.check_date_format v.
Proof. reflexivity. Qed.

Lemma check_date_format_str (s : string) :
  ContactIn.check_date_format (PyStr s)
  = if String.eqb s "" then Ok PyNone
    else match datetime.fromisoformat s with
         | Ok d => Ok (PyDate d)
         | Raise _ => Raise (ValueError date_format_message)
         end.
Proof.
  simpl. destruct (String.eqb s ""); [done|].
  destruct (datetime.fromisoformat s) as [d|e] eqn:Hs; [done|].
  by apply fromisoformat_raises in Hs as [msg ->].
Qed.

Lemma isoformat_nonempty (d : date) : String.eqb (datetime.isoformat d) "" = false.
Proof.
  apply String.eqb_neq. intros H.
  pose proof (isoformat_chars d) as Hc. rewrite H in Hc. discriminate.
Qed.

Lemma basic_format_nonempty (d : date) :
  String.eqb (datetime.basic_format d) "" = false.
Proof.
  apply String.eqb_neq. intros H.
  pose proof (basic_format_chars d) as Hc. rewrite H in Hc. discriminate.
Qed.

(** The validator of the birth date, the same in [ContactIn] and in
    [ContactUpdate], turns the form [YYYY-MM-DD] of a date into that date
    and the empty string into [None], which become the value of the
    field. *)
Lemma check_date_format_iso_and_empty :
  (∀ d, datetime.valid d →
        ContactIn.check_date_format (PyStr (datetime.isoformat d))
        = Ok (PyDate d)
        ∧ ContactUpdate.check_date_format (PyStr (datetime.isoformat d))
          = Ok (PyDate d)
        ∧ optional_date ContactIn.check_date_format
            (Some (PyStr (datetime.isoformat d))) = inl (Some d)
        ∧ optional_date ContactUpdate.check_date_format
            (Some (PyStr (datetime.isoformat d))) = inl (Some d))
  ∧ (ContactIn.check_date_format (PyStr "") = Ok PyNone
     ∧ ContactUpdate.check_date_format (PyStr "") = Ok PyNone
     ∧ optional_date ContactIn.check_date_format (Some (PyStr ""))
       = inl None
     ∧ optional_date ContactUpdate.check_date_format (Some (PyStr ""))
       = inl None).
Proof.
  split; [|done].
  intros d Hv.
  assert (ContactIn.check_date_format (PyStr (datetime.isoformat d))
          = Ok (PyDate d)) as Hok.
  { rewrite check_date_format_str.
    by rewrite isoformat_nonempty, fromisoformat_isoformat. }
  do 2 (split; [exact Hok|]).
  change ContactUpdate.check_date_format with ContactIn.check_date_format.
  unfold optional_date. by rewrite Hok.
Qed.

(** A string that [date.fromisoformat] does not read, the empty one apart,
    raises the format error in the validator, and an input shape built with
    it raises a validation error on [date_of_birth]. The store is not an
    argument of any of these functions. *)
Lemma check_date_format_unread (s : string) :
  s ≠ "" → is_ok (datetime.fromisoformat s) = false →
  ContactIn.check_date_format (PyStr s)
  = Raise (ValueError date_format_message)
  ∧ ContactUpdate.check_date_format (PyStr s)
    = Raise (ValueError date_format_message)
  ∧ ∀ data, data !! "date_of_birth" = Some (PyStr s) →
      (∃ errors,
         ContactIn.validate data = Raise (ValidationError errors)
         ∧ ("date_of_birth", date_format_message) ∈ errors)
      ∧ (∃ errors,
           ContactUpdate.validate data = Raise (ValidationError errors)
           ∧ ("date_of_birth", date_format_message) ∈ errors).
Proof.
  intros Hne Hno.
  assert (ContactIn.check_date_format (PyStr s)
          = Raise (ValueError date_format_message)) as Hraise.
  { rewrite check_date_format_str.
    destruct (String.eqb_spec s ""); [done|].
    by destruct (datetime.fromisoformat s). }
  do 2 (split; [exact Hraise|]).
  intros data Hdata.
  assert (optional_date ContactIn.check_date_format (data !! "date_of_birth")
          = inr date_format_message) as Hfield.
  { rewrite Hdata. unfold optional_date. by rewrite Hraise. }
  split.
  + pose proof (ContactIn_validate_cases data) as Hcases.
    destruct (ContactIn.validate data) as [b|e].
    * destruct Hcases as (_ & _ & _ & _ & Hok & _). congruence.
    * destruct Hcases as (errors & -> & _ & ->).
      eexists. split; [reflexivity|].
      rewrite !elem_of_app, !elem_of_field_errors. rewrite Hfield.
      do 4 right. by left.
  + pose proof (ContactUpdate_validate_cases data) as Hcases.
    destruct (ContactUpdate.validate data) as [b|e].
    * unfold ContactUpdate.check_date_format in Hcases.
      fold ContactIn.check_date_format in Hcases. congruence.
    * destruct Hcases as (errors & -> & _ & ->).
      eexists. split; [reflexivity|].
      rewrite !elem_of_app, !elem_of_field_errors.
      unfold ContactUpdate.check_date_format.
      fold ContactIn.check_date_format. rewrite Hfield.
      do 4 right. by left.
Qed.

(** C8. The validator of the birth date does not keep to the form
    [YYYY-MM-DD] that its error message requires: it accepts whatever
    [date.fromisoformat] reads. The eight digits [YYYYMMDD] of any date, a
    string that is neither empty nor the form [YYYY-MM-DD] of a date, are
    not rejected: both validators return the date, which becomes the value
    of the field. *)
Theorem check_date_format_accepts_basic_form (d : date) :
  datetime.valid d →
  datetime.basic_format d ≠ ""
  ∧ (∀ d', datetime.basic_format d ≠ datetime.isoformat d')
  ∧ ContactIn.check_date_format (PyStr (datetime.basic_format d))
    = Ok (PyDate d)
  ∧ ContactUpdate.check_date_format (PyStr (datetime.basic_format d))
    = Ok (PyDate d)
  ∧ optional_date ContactIn.check_date_format
      (Some (PyStr (datetime.basic_format d))) = inl (Some d)
  ∧ optional_date ContactUpdate.check_date_format
      (Some (PyStr (datetime.basic_format d))) = inl (Some d).
Proof.
  intros Hv.
  assert (ContactIn.check_date_format (PyStr (datetime.basic_format d))
          = Ok (PyDate d)) as Hok.
  { rewrite check_date_format_str.
    by rewrite basic_format_nonempty, fromisoformat_basic_format. }
  split.
  { apply String.eqb_neq, basic_format_nonempty. }
  split; [intros d'; apply basic_format_not_isoformat|].
  do 2 (split; [exact Hok|]).
  change ContactUpdate.check_date_format with ContactIn.check_date_format.
  unfold optional_date. by rewrite Hok.
Qed.

(** The string [19900130] is accepted as the 30th of January 1990. *)
Lemma check_date_format_accepts_19900130 :
  datetime.valid (mkdate 1990 1 30)
  ∧ datetime.basic_format (mkdate 1990 1 30) = "19900130"
  ∧ ContactIn.check_date_format (PyStr "19900130")
    = Ok (PyDate (mkdate 1990 1 30))
  ∧ ContactUpdate.check_date_format (PyStr "19900130")
    = Ok (PyDate (mkdate 1990 1 30)).
Proof.
  assert (datetime.valid (mkdate 1990 1 30)) as Hv by (vm_compute; exact I).
  split; [exact Hv|]. split; [reflexivity|].
  destruct (check_date_format_accepts_basic_form (mkdate 1990 1 30) Hv)
    as (_ & _ & Hin & Hupdate & _).
  split; [exact Hin|exact Hupdate].
Defined.

(** The validators on some strings: the form [YYYY-MM-DD] is read; a date
    written with slashes and the 30th of February are rejected, and so is
    the input shape built with them; the eight digits, the week forms and
    eight digits followed by two more characters are read, and the input
    shape built with them is accepted. *)
Example check_date_format_samples :
  ContactIn.check_date_format (PyStr "1990-01-30")
  = Ok (PyDate (mkdate 1990 1 30))
  ∧ ContactUpdate.check_date_format (PyStr "30/01/1990")
    = Raise (ValueError date_format_message)
  ∧ ContactIn.check_date_format (PyStr "1990-02-30")
    = Raise (ValueError date_format_message)
  ∧ is_ok (ContactIn.validate (sample.ann_data "30/01/1990" "met at work"))
    = false
  ∧ is_ok (ContactUpdate.validate (sample.ann_data "1990-02-30" "met at work"))
    = false
  ∧ ContactIn.check_date_format (PyStr "1990-W05-2")
    = Ok (PyDate (mkdate 1990 1 30))
  ∧ ContactIn.check_date_format (PyStr "1990W05")
    = Ok (PyDate (mkdate 1990 1 29))
  ∧ ContactIn.check_date_format (PyStr "19900130xx")
    = Ok (PyDate (mkdate 1990 1 30))
  ∧ (body ← ContactIn.validate (sample.ann_data "19900130" "met at work");
     Ok (ContactIn.date_of_birth body))
    = Ok (Some (mkdate 1990 1 30))
  ∧ (body ← ContactUpdate.validate (sample.ann_data "19900130" "met at work");
     Ok (ContactUpdate.date_of_birth body))
    = Ok (Some (mkdate 1990 1 30)).
Proof. repeat split; vm_compute; reflexivity. Qed.

(* ===================================================================== *)
(** ** Upcoming birthdays *)
(* ===================================================================== *)

Lemma leb_spec (a b : date) :
  datetime.leb a b
  ↔ datetime.year a < datetime.year b
    ∨ (datetime.year a = datetime.year b
       ∧ (datetime.month a < datetime.month b
          ∨ (datetime.month a = datetime.month b
             ∧ datetime.day a ≤ datetime.day b))).
Proof.
  unfold datetime.leb.
  rewrite !orb_True, !andb_True, !orb_True, !andb_True, !Is_true_true.
  rewrite !Z.ltb_lt, !Z.eqb_eq, Z.leb_le. done.
Qed.

#[local] Instance dob_le_total : Total dob_le.
Proof. intros a b. unfold dob_le. rewrite !leb_spec. lia. Qed.

#[local] Instance dob_le_trans : Transitive dob_le.
Proof. intros a b c. unfold dob_le. rewrite !leb_spec. lia. Qed.

Lemma all_ordered_page (db : Session) (p : Contact.t → bool) (skip lim : Z) :
  0 ≤ skip → 0 ≤ lim →
  all (orm.limit lim (offset skip
         (order_by_date_of_birth (filter_ p (query db)))))
  = Ok (take (Z.to_nat lim) (drop (Z.to_nat skip)
          (merge_sort dob_le (filter (λ c, p c) (contacts db))))).
Proof.
  intros Hs Hl. unfold all. simpl.
  destruct (Z.ltb_spec skip 0); [lia|].
  destruct (Z.ltb_spec lim 0); [lia|].
  reflexivity.
Qed.


(** On 2024-01-28, whatever the year of birth: 01-30 is in the window,
    02-05 and 01-20 are not. *)
Lemma upcoming_birthday_any_year (y : Z) :
  spec.upcoming_birthday (mkdate 2024 1 28) (mkdate 2024 2 4) (mkdate y 1 30)
  ∧ ¬ spec.upcoming_birthday (mkdate 2024 1 28) (mkdate 2024 2 4)
        (mkdate y 2 5)
  ∧ ¬ spec.upcoming_birthday (mkdate 2024 1 28) (mkdate 2024 2 4)
        (mkdate y 1 20).
Proof. unfold spec.upcoming_birthday. simpl. lia. Qed.


(* ===================================================================== *)
(** ** Keyword search *)
(* ===================================================================== *)

Section Like.

Import sql spec.

Lemma like_match_any (ts : list tok) (s : list ascii) :
  like_match (Any :: ts) s
  = like_match ts s
    || match s with [] => false | _ :: s' => like_match (Any :: ts) s' end.
Proof. by destruct s. Qed.

Lemma like_match_any_end (s : list ascii) : like_match [Any] s = true.
Proof.
  induction s as [|x s IH]; [done|].
  rewrite like_match_any, IH. apply orb_true_r.
Qed.









Lemma lower_pattern (keyword : string) :
  lower ("%" +:+ keyword +:+ "%") = "%"%char :: lower keyword ++ ["%"%char].
Proof.
  unfold lower. rewrite !chars_append, !map_app. reflexivity.
Qed.


End Like.




(* ===================================================================== *)
(** ** Further properties of the repository *)
(* ===================================================================== *)

Lemma filter_true_id {A} (l : list A) : filter (λ _ : A, Is_true true) l = l.
Proof.
  induction l as [|x l IH]; [done|].
  rewrite filter_cons_True by done. by rewrite IH.
Qed.

Lemma get_contacts_eq (skip lim : Z) (db : Session) :
  get_contacts skip lim db
  = if (skip <? 0) then Raise (DataError "OFFSET must not be negative")
    else if (lim <? 0) then Raise (DataError "LIMIT must not be negative")
    else Ok (take (Z.to_nat lim) (drop (Z.to_nat skip) (contacts db))).
Proof.
  unfold get_contacts, all, selected. simpl. by rewrite filter_true_id.
Qed.

Lemma remove_contact_eq (contact_id : Z) (db : Session) :
  remove_contact contact_id db
  = match head (filter (λ c, Contact.id c = contact_id) (contacts db)) with
    | Some c =>
        Ok (Some c,
            mkSession
              (filter (λ x, Contact.id x ≠ contact_id) (contacts db))
              (next_id db) (backslash_escape db))
    | None => Ok (None, db)
    end.
Proof.
  unfold remove_contact. rewrite first_by_id. simpl.
  destruct (head _) as [c|] eqn:Hhead; [|done].
  apply head_filter_Some in Hhead as [_ Hid].
  unfold delete_commit. by rewrite Hid.
Qed.

(** X1. Removing one id leaves every other id as it was: a lookup of a
    different id gives the same answer before and after. *)
Theorem remove_contact_frame (i j : Z) (db : Session) :
  i ≠ j →
  ∃ r db',
    remove_contact i db = Ok (r, db')
    ∧ get_contact j db' = get_contact j db.
Proof.
  intros Hij. rewrite remove_contact_eq.
  destruct (head _) as [c|]; [|by eauto].
  eexists _, _. split; [reflexivity|].
  rewrite !get_contact_eq. simpl. f_equal. f_equal.
  rewrite list_filter_filter. apply list_filter_iff. intros x. lia.
Qed.

Lemma remove_contact_frame_seeded :
  2 ≠ 3
  ∧ ∃ r db',
      remove_contact 2 sample.seeded = Ok (r, db')
      ∧ get_contact 3 db' = Ok (Some sample.cy).
Proof.
  split; [lia|].
  destruct (remove_contact_frame 2 3 sample.seeded ltac:(lia))
    as (r & db' & Hrm & Hget).
  exists r, db'. split; [exact Hrm|].
  rewrite Hget. vm_compute. reflexivity.
Defined.

(** X2. Removing the same id a second time finds nothing: it returns
    [None] and leaves the store of the first removal unchanged. *)
Theorem remove_contact_twice (i : Z) (db : Session) :
  ∃ r db',
    remove_contact i db = Ok (r, db')
    ∧ remove_contact i db' = Ok (None, db').
Proof.
  rewrite remove_contact_eq.
  destruct (head _) as [c|] eqn:Hhead.
  - eexists _, _. split; [reflexivity|].
    rewrite remove_contact_eq. simpl.
    rewrite (proj2 (head_filter_None _ _)); [done|].
    intros x Hx. by apply list_elem_of_filter in Hx as [? ?].
  - eexists _, _. split; [reflexivity|].
    by rewrite remove_contact_eq, Hhead.
Qed.

Lemma filter_other_ids (i : Z) (l : list Contact.t) :
  i ∉ Contact.id <$> l → filter (λ x, Contact.id x ≠ i) l = l.
Proof.
  induction l as [|y l IH]; [done|].
  rewrite fmap_cons, not_elem_of_cons. intros [Hy Hl].
  rewrite filter_cons_True by done. by rewrite IH.
Qed.

Lemma length_filter_other_ids (i : Z) (l : list Contact.t) :
  NoDup (Contact.id <$> l) →
  head (filter (λ c, Contact.id c = i) l) ≠ None →
  length l = S (length (filter (λ x, Contact.id x ≠ i) l)).
Proof.
  induction l as [|x l IH]; [done|].
  rewrite fmap_cons, NoDup_cons. intros [Hx Hl] Hsome.
  destruct (decide (Contact.id x = i)) as [Hxi|Hxi].
  - rewrite filter_cons_False by (intros Hne; by apply Hne).
    rewrite filter_other_ids by (by rewrite <- Hxi). done.
  - rewrite filter_cons_True by done.
    rewrite filter_cons_False in Hsome by done.
    simpl. f_equal. by apply IH.
Qed.

(** X3. Removal keeps the primary keys distinct, and on a store with
    distinct keys it deletes exactly one row when it returns a contact and
    none when it returns [None]. *)
Theorem remove_contact_unique_ids (i : Z) (db : Session) :
  NoDup (map Contact.id (contacts db)) →
  ∃ r db',
    remove_contact i db = Ok (r, db')
    ∧ NoDup (map Contact.id (contacts db'))
    ∧ length (contacts db)
      = (length (contacts db')
         + match r with Some _ => 1 | None => 0 end)%nat.
Proof.
  intros Hnd. rewrite remove_contact_eq.
  destruct (head _) as [c|] eqn:Hhead.
  - eexists _, _. split; [reflexivity|]. simpl. split.
    + eapply sublist_NoDup; [exact Hnd|].
      apply (fmap_sublist Contact.id), sublist_filter.
    + rewrite (length_filter_other_ids i); [lia|exact Hnd|by rewrite Hhead].
  - eexists _, _. split; [reflexivity|]. split; [done|]. lia.
Qed.

Lemma remove_contact_unique_ids_seeded :
  NoDup (map Contact.id (contacts sample.seeded))
  ∧ ∃ db',
      remove_contact 2 sample.seeded = Ok (Some sample.bob, db')
      ∧ NoDup (map Contact.id (contacts db'))
      ∧ length (contacts db') = 4%nat.
Proof.
  assert (NoDup (map Contact.id (contacts sample.seeded))) as Hnd.
  { apply (bool_decide_unpack (NoDup (Contact.id <$> contacts sample.seeded))).
    vm_compute. exact I. }
  split; [exact Hnd|].
  destruct (remove_contact_unique_ids 2 sample.seeded Hnd)
    as (r & db' & Hrm & Hnd' & Hlen).
  assert (∃ db0, remove_contact 2 sample.seeded = Ok (Some sample.bob, db0))
    as [db0 Hrun] by (eexists; vm_compute; reflexivity).
  rewrite Hrun in Hrm. injection Hrm as <- <-.
  exists db0. split; [exact Hrun|]. split; [exact Hnd'|].
  simpl in Hlen. lia.
Defined.

(** X4. On a store with distinct primary keys, [get_contact] returns a
    contact exactly when that contact is stored under the id asked for:
    every stored contact is found by its own id, and nothing else is. *)
Theorem get_contact_unique_ids (i : Z) (c : Contact.t) (db : Session) :
  NoDup (map Contact.id (contacts db)) →
  get_contact i db = Ok (Some c) ↔ c ∈ contacts db ∧ Contact.id c = i.
Proof.
  intros Hnd. rewrite get_contact_eq. split.
  - intros [= Hhead]. by apply head_filter_Some in Hhead.
  - intros [Hin Hid]. f_equal. revert Hnd Hin.
    induction (contacts db) as [|x l IH]; [by intros _ ?%elem_of_nil|].
    change (map Contact.id (x :: l)) with (Contact.id x :: (Contact.id <$> l)).
    rewrite NoDup_cons. intros [Hx Hl] [->|Hin]%elem_of_cons.
    + by rewrite filter_cons_True.
    + rewrite filter_cons_False; [by apply IH|].
      intros Hxi. apply Hx. apply list_elem_of_fmap. exists c.
      split; [congruence|done].
Qed.

Lemma get_contact_unique_ids_seeded :
  NoDup (map Contact.id (contacts sample.seeded))
  ∧ get_contact 4 sample.seeded = Ok (Some sample.dee).
Proof.
  assert (NoDup (map Contact.id (contacts sample.seeded))) as Hnd.
  { apply (bool_decide_unpack (NoDup (Contact.id <$> contacts sample.seeded))).
    vm_compute. exact I. }
  split; [exact Hnd|].
  apply (get_contact_unique_ids 4 sample.dee sample.seeded Hnd).
  split; [|reflexivity].
  unfold sample.seeded. simpl. do 3 right. left.
Defined.

(** X5. For non-negative [skip] and [limit] the page of [get_contacts] has
    [limit] contacts, or as many as are left after the first [skip] when
    those are fewer: none once [skip] reaches the number of stored
    contacts, and none for a [limit] of zero. *)
Theorem get_contacts_length (skip lim : Z) (db : Session) :
  0 ≤ skip → 0 ≤ lim →
  ∃ page,
    get_contacts skip lim db = Ok page
    ∧ length page
      = (Z.to_nat lim `min` (length (contacts db) - Z.to_nat skip))%nat.
Proof.
  intros Hs Hl. rewrite get_contacts_eq.
  destruct (Z.ltb_spec skip 0); [lia|].
  destruct (Z.ltb_spec lim 0); [lia|].
  eexists. split; [reflexivity|]. by rewrite length_take, length_drop.
Qed.

Lemma get_contacts_length_seeded :
  0 ≤ 4 ∧ 0 ≤ 3
  ∧ ∃ page, get_contacts 4 3 sample.seeded = Ok page ∧ length page = 1%nat.
Proof.
  split; [lia|]. split; [lia|].
  exact (get_contacts_length 4 3 sample.seeded ltac:(lia) ltac:(lia)).
Defined.

Lemma pages_concat {A} (l : list A) (skip a b : Z) :
  0 ≤ skip → 0 ≤ a → 0 ≤ b →
  take (Z.to_nat a) (drop (Z.to_nat skip) l)
  ++ take (Z.to_nat b) (drop (Z.to_nat (skip + a)) l)
  = take (Z.to_nat (a + b)) (drop (Z.to_nat skip) l).
Proof.
  intros Hs Ha Hb. rewrite !Z2Nat.inj_add by done.
  rewrite <- drop_drop. apply take_take_drop.
Qed.

(** X6. Consecutive pages join up. For non-negative [skip], [a] and [b],
    the page of [a] contacts at [skip] followed by the page of [b]
    contacts at [skip + a] is the page of [a + b] contacts at [skip]: no
    contact is lost or repeated between two pages. This holds for the
    plain listing, for the keyword search, and for the birthday query. *)
Theorem pages_join (skip a b : Z) (db : Session) :
  0 ≤ skip → 0 ≤ a → 0 ≤ b →
  (∃ p q,
     get_contacts skip a db = Ok p
     ∧ get_contacts (skip + a) b db = Ok q
     ∧ get_contacts skip (a + b) db = Ok (p ++ q))
  ∧ (∀ keyword, ∃ p q,
       find_contact keyword skip a db = Ok p
       ∧ find_contact keyword (skip + a) b db = Ok q
       ∧ find_contact keyword skip (a + b) db = Ok (p ++ q))
  ∧ (∀ today next, datetime.add_days today 7 = Ok next → ∃ p q,
       get_contacts_birthday_for_next_week today skip a db = Ok p
       ∧ get_contacts_birthday_for_next_week today (skip + a) b db = Ok q
       ∧ get_contacts_birthday_for_next_week today skip (a + b) db
         = Ok (p ++ q)).
Proof.
  intros Hs Ha Hb. split; [|split].
  - rewrite !get_contacts_eq.
    destruct (Z.ltb_spec skip 0), (Z.ltb_spec a 0), (Z.ltb_spec b 0),
      (Z.ltb_spec (skip + a) 0), (Z.ltb_spec (a + b) 0); try lia.
    eexists _, _. do 2 (split; [reflexivity|]). by rewrite pages_concat.
  - intros keyword. unfold find_contact.
    rewrite !all_query_page by lia.
    eexists _, _. do 2 (split; [reflexivity|]). by rewrite pages_concat.
  - intros today next Hnext. unfold get_contacts_birthday_for_next_week.
    rewrite Hnext. simpl. rewrite !all_ordered_page by lia.
    eexists _, _. do 2 (split; [reflexivity|]). by rewrite pages_concat.
Qed.

Lemma pages_join_seeded :
  0 ≤ 1 ∧ 0 ≤ 2 ∧ 0 ≤ 1
  ∧ get_contacts 1 2 sample.seeded = Ok [sample.bob; sample.cy]
  ∧ get_contacts 3 1 sample.seeded = Ok [sample.dee]
  ∧ get_contacts 1 3 sample.seeded = Ok [sample.bob; sample.cy; sample.dee].
Proof.
  do 3 (split; [lia|]).
  destruct (pages_join 1 2 1 sample.seeded ltac:(lia) ltac:(lia) ltac:(lia))
    as [(p & q & Hp & Hq & Hpq) _].
  assert (get_contacts 1 2 sample.seeded = Ok [sample.bob; sample.cy]) as Hp'
    by (vm_compute; reflexivity).
  assert (get_contacts 3 1 sample.seeded = Ok [sample.dee]) as Hq'
    by (vm_compute; reflexivity).
  change (1 + 2) with 3 in Hq. change (2 + 1) with 3 in Hpq.
  split; [exact Hp'|]. split; [exact Hq'|].
  rewrite Hp' in Hp. rewrite Hq' in Hq.
  injection Hp as <-. injection Hq as <-. exact Hpq.
Defined.

(** *** Keyword search, whatever the keyword *)

Lemma all_filter_ext (db : Session) (p q : Contact.t → bool) (skip lim : Z) :
  (∀ c, p c = q c) →
  all (orm.limit lim (offset skip (filter_ p (query db))))
  = all (orm.limit lim (offset skip (filter_ q (query db)))).
Proof.
  intros Hpq. unfold all, selected. simpl.
  destruct (skip <? 0); [done|]. destruct (lim <? 0); [done|].
  do 3 f_equal. apply list_filter_iff. intros c. by rewrite Hpq.
Qed.

Lemma all_filter_true (db : Session) (p : Contact.t → bool) (skip lim : Z) :
  (∀ c, p c = true) →
  all (orm.limit lim (offset skip (filter_ p (query db))))
  = all (orm.limit lim (offset skip (query db))).
Proof.
  intros Hp. unfold all, selected. simpl.
  destruct (skip <? 0); [done|]. destruct (lim <? 0); [done|].
  do 3 f_equal. apply list_filter_iff. intros c. by rewrite Hp.
Qed.

Lemma tokens_percent (backslash : bool) (k : list ascii) :
  Forall (λ c, c = "%"%char) k →
  Forall (λ t, t = sql.Any) (sql.tokens backslash k).
Proof.
  induction 1 as [|c k -> _ IH]; [constructor|].
  simpl. by constructor.
Qed.

Lemma like_match_all_any (ts : list sql.tok) (s : list ascii) :
  Forall (λ t, t = sql.Any) ts → ts ≠ [] → sql.like_match ts s = true.
Proof.
  induction 1 as [|t ts -> Hts IH]; [done|]. intros _.
  destruct ts as [|t' ts]; [apply like_match_any_end|].
  rewrite like_match_any, IH by done. done.
Qed.

Lemma lower_percent (k : list ascii) :
  Forall (λ c, c = "%"%char) k →
  Forall (λ c, c = "%"%char) (map sql.lower_char k).
Proof. induction 1 as [|c k -> _ IH]; simpl; by constructor. Qed.

(** X7. A keyword made of [%] characters only, the empty keyword among
    them, filters nothing: [find_contact] then answers as [get_contacts]
    does, for every [skip] and [limit]. *)
Theorem find_contact_percent (keyword : string) (skip lim : Z) (db : Session) :
  Forall (λ c, c = "%"%char) (list_ascii_of_string keyword) →
  find_contact keyword skip lim db = get_contacts skip lim db.
Proof.
  intros Hk. unfold find_contact, get_contacts.
  apply all_filter_true. intros c.
  assert (∀ value, sql.ilike (backslash_escape db) value
                     ("%" +:+ keyword +:+ "%") = true) as Hlike.
  { intros value. unfold sql.ilike. rewrite lower_pattern.
    apply like_match_all_any; [|done].
    apply tokens_percent. constructor; [done|].
    apply Forall_app. split; [by apply lower_percent|by constructor]. }
  unfold sql.or_. simpl. by rewrite Hlike.
Qed.

Lemma find_contact_percent_seeded :
  find_contact "" 1 2 sample.seeded = Ok [sample.bob; sample.cy]
  ∧ find_contact "%%" 1 2 sample.seeded = Ok [sample.bob; sample.cy].
Proof.
  split.
  - rewrite (find_contact_percent "" 1 2 sample.seeded); [reflexivity|].
    constructor.
  - rewrite (find_contact_percent "%%" 1 2 sample.seeded); [reflexivity|].
    repeat constructor.
Defined.

(** X8. The letter case of the keyword does not matter: two keywords that
    differ only in case give the same answer, for every [skip] and
    [limit]. *)
Theorem find_contact_keyword_case (k1 k2 : string) (skip lim : Z)
    (db : Session) :
  sql.lower k1 = sql.lower k2 →
  find_contact k1 skip lim db = find_contact k2 skip lim db.
Proof.
  intros Hk. unfold find_contact. apply all_filter_ext. intros c.
  unfold sql.ilike. by rewrite !lower_pattern, Hk.
Qed.

Lemma find_contact_keyword_case_seeded :
  sql.lower "SmItH" = sql.lower "smith"
  ∧ find_contact "SmItH" 0 10 sample.seeded = Ok [sample.ann].
Proof.
  split; [reflexivity|].
  rewrite (find_contact_keyword_case "SmItH" "smith" 0 10 sample.seeded);
    reflexivity.
Defined.

(** X9. Whatever the keyword, wildcards included, a search with
    non-negative [skip] and [limit] succeeds, and its answer is made of
    stored contacts in store order, at most [limit] of them. *)
Theorem find_contact_sublist (keyword : string) (skip lim : Z) (db : Session) :
  0 ≤ skip → 0 ≤ lim →
  ∃ found,
    find_contact keyword skip lim db = Ok found
    ∧ found `sublist_of` contacts db
    ∧ (length found ≤ Z.to_nat lim)%nat.
Proof.
  intros Hs Hl. unfold find_contact. rewrite all_query_page by done.
  eexists. split; [reflexivity|]. split.
  - etrans; [apply sublist_take|]. etrans; [apply sublist_drop|].
    apply sublist_filter.
  - rewrite length_take. lia.
Qed.

Lemma find_contact_sublist_seeded :
  0 ≤ 1 ∧ 0 ≤ 2
  ∧ ∃ found,
      find_contact "e_" 1 2 sample.seeded = Ok found
      ∧ found `sublist_of` contacts sample.seeded
      ∧ (length found ≤ 2)%nat.
Proof.
  split; [lia|]. split; [lia|].
  exact (find_contact_sublist "e_" 1 2 sample.seeded ltac:(lia) ltac:(lia)).
Defined.




(* ===================================================================== *)
(** ** Further properties of the shapes *)
(* ===================================================================== *)

Lemma ContactIn_validate_row (obj : Contact.t) :
  let within :=
    (String.length (Contact.first_name obj) ≤ 25
     ∧ String.length (Contact.last_name obj) ≤ 50
     ∧ String.length (Contact.email obj) ≤ 100
     ∧ String.length (Contact.phone_number obj) ≤ 15
     ∧ String.length (Contact.additional_data obj) ≤ 500)%nat in
  (within →
   ContactIn.validate (ContactOut.getter_dict obj)
   = Ok (ContactIn.mk (Contact.first_name obj) (Contact.last_name obj)
           (Contact.email obj) (Contact.phone_number obj)
           (Some (Contact.date_of_birth obj)) (Contact.additional_data obj)))
  ∧ (¬ within →
     ∃ errors,
       ContactIn.validate (ContactOut.getter_dict obj)
       = Raise (ValidationError errors)).
Proof.
  intros within.
  pose proof (getter_dict_lookups obj) as (H1 & H2 & H3 & H4 & H5 & H6).
  pose proof (ContactIn_validate_cases (ContactOut.getter_dict obj)) as Hcases.
  rewrite H1, H2, H3, H4, H5, H6 in Hcases.
  unfold ContactIn.first_name_max, ContactIn.last_name_max,
    ContactIn.email_max, ContactIn.phone_number_max,
    ContactIn.additional_data_max in Hcases.
  change (optional_date ContactIn.check_date_format
            (Some (PyDate (Contact.date_of_birth obj))))
    with (inl (Some (Contact.date_of_birth obj)) : schemas.field (option date))
    in Hcases.
  split.
  - intros (K1 & K2 & K3 & K4 & K5).
    rewrite !str_max_length_accepts in Hcases by done.
    destruct (ContactIn.validate _) as [b|e].
    + destruct Hcases as (? & ? & ? & ? & ? & ?). destruct b. simpl in *.
      congruence.
    + by destruct Hcases as (errors & _ & Hne & ->).
  - intros Hout. destruct (ContactIn.validate _) as [b|e].
    + destruct Hcases as (K1 & K2 & K3 & K4 & _ & K5). exfalso. apply Hout.
      unfold within.
      repeat split; apply Nat.le_ngt; intros Hgt;
        apply str_max_length_rejects in Hgt as [msg Hmsg]; congruence.
    + destruct Hcases as (errors & -> & _). eauto.
Qed.

(** X11. The two output shapes, [ContactOut] and [ContactDelete], return a
    stored contact with every field and the id unchanged when its first
    name, last name, email, phone and notes have at most 25, 50, 100, 15
    and 500 characters, and raise a validation error otherwise. *)
Theorem output_shapes_from_orm (obj : Contact.t) :
  let shown :=
    ContactIn.mk (Contact.first_name obj) (Contact.last_name obj)
      (Contact.email obj) (Contact.phone_number obj)
      (Some (Contact.date_of_birth obj)) (Contact.additional_data obj) in
  if decide (String.length (Contact.first_name obj) ≤ 25
             ∧ String.length (Contact.last_name obj) ≤ 50
             ∧ String.length (Contact.email obj) ≤ 100
             ∧ String.length (Contact.phone_number obj) ≤ 15
             ∧ String.length (Contact.additional_data obj) ≤ 500)%nat
  then
    ContactOut.from_orm obj = Ok (ContactOut.mk shown (Contact.id obj))
    ∧ ContactDelete.from_orm obj = Ok (ContactDelete.mk shown (Contact.id obj))
  else
    ∃ errors,
      ContactOut.from_orm obj = Raise (ValidationError errors)
      ∧ ContactDelete.from_orm obj = Raise (ValidationError errors).
Proof.
  intros shown. unfold ContactOut.from_orm, ContactDelete.from_orm.
  destruct (ContactIn_validate_row obj) as [Hin Hout].
  destruct (decide _) as [Hw|Hw].
  - by rewrite (Hin Hw).
  - destruct (Hout Hw) as [errors ->]. eauto.
Qed.

(** X12. What [ContactIn] accepted can be shown again: if the keyword
    arguments are accepted with a birth date, the stored row that carries
    the accepted fields under any id goes through [ContactOut] unchanged. *)
Theorem accepted_input_is_returned (data : gmap string pyval)
    (b : ContactIn.t) (d : date) (i : Z) (user : option Z) :
  ContactIn.validate data = Ok b →
  ContactIn.date_of_birth b = Some d →
  ContactOut.from_orm
    (Contact.mk i (ContactIn.first_name b) (ContactIn.last_name b)
       (ContactIn.email b) (ContactIn.phone_number b) d
       (ContactIn.additional_data b) user)
  = Ok (ContactOut.mk b i).
Proof.
  intros Hb Hd.
  pose proof (ContactIn_validate_cases data) as Hcases. rewrite Hb in Hcases.
  destruct Hcases as (K1 & K2 & K3 & K4 & _ & K5).
  assert (∀ n v s, str_max_length n v = inl s → (String.length s ≤ n)%nat)
    as Hlen.
  { intros n [[| s' |]|] s; simpl; try done.
    destruct (len_le s' n) eqn:Hle; [|done].
    intros [= ->]. by apply len_le_spec. }
  apply Hlen in K1, K2, K3, K4, K5.
  unfold ContactOut.from_orm.
  match goal with
  | |- context [ContactOut.getter_dict ?row] =>
      destruct (ContactIn_validate_row row) as [Hin _]
  end.
  rewrite Hin by (simpl; done).
  simpl. destruct b. simpl in *. by rewrite Hd.
Qed.

Lemma accepted_input_is_returned_ann :
  ContactIn.validate (sample.ann_data "1990-01-30" "met at work")
  = Ok sample.new_ann
  ∧ ContactOut.from_orm sample.ann = Ok (ContactOut.mk sample.new_ann 1).
Proof.
  assert (ContactIn.validate (sample.ann_data "1990-01-30" "met at work")
          = Ok sample.new_ann) as Hb by (vm_compute; reflexivity).
  split; [exact Hb|].
  exact (accepted_input_is_returned _ sample.new_ann (mkdate 1990 1 30) 1 None
           Hb eq_refl).
Defined.

Lemma str_length_str (lo hi : nat) (s : string) :
  (lo ≤ hi)%nat →
  (∃ v, str_length lo hi (Some (PyStr s)) = inl v)
  ↔ (lo ≤ String.length s ≤ hi)%nat.
Proof.
  intros Hlohi. simpl.
  destruct (Nat.ltb_spec (String.length s) lo).
  - split; [by intros [? [=]]|lia].
  - destruct (len_le s hi) eqn:Hle.
    + apply len_le_spec in Hle. split; [lia|eauto].
    + split; [by intros [? [=]]|].
      intros [_ Hhi]. apply len_le_spec in Hhi. congruence.
Qed.

(** X13. The registration shape accepts string values exactly when the
    username has 5 to 16 characters and the password 6 to 10; the email
    is taken as it is, whatever the string. *)
Theorem UserIn_bounds (data : gmap string pyval)
    (username email password : string) :
  data !! "username" = Some (PyStr username) →
  data !! "email" = Some (PyStr email) →
  data !! "password" = Some (PyStr password) →
  if decide ((5 ≤ String.length username ≤ 16)%nat
             ∧ (6 ≤ String.length password ≤ 10)%nat)
  then UserIn.validate data = Ok (UserIn.mk username email password)
  else ∃ errors,
         UserIn.validate data = Raise (ValidationError errors)
         ∧ errors ≠ []
         ∧ ∀ loc msg, (loc, msg) ∈ errors → loc ≠ "email".
Proof.
  intros Hu He Hp. unfold UserIn.validate. rewrite Hu, He, Hp.
  pose proof (str_length_str 5 16 username ltac:(lia)) as Hun.
  pose proof (str_length_str 6 10 password ltac:(lia)) as Hpw.
  change (required_str (Some (PyStr email))) with (inl email : schemas.field _).
  destruct (str_length 5 16 _) as [u|mu] eqn:Eu,
    (str_length 6 10 _) as [pw|mp] eqn:Ep.
  - assert (u = username ∧ pw = password) as [-> ->].
    { simpl in Eu, Ep.
      destruct (_ <? _)%nat in Eu; [done|]. destruct (len_le _ _) in Eu; [|done].
      destruct (_ <? _)%nat in Ep; [done|]. destruct (len_le _ _) in Ep; [|done].
      by injection Eu as ->; injection Ep as ->. }
    rewrite decide_True; [done|]. split; [apply Hun|apply Hpw]; eauto.
  - rewrite decide_False.
    + eexists. split; [reflexivity|]. split; [done|].
      intros loc msg Hin. simpl in Hin.
      apply list_elem_of_singleton in Hin. by injection Hin as -> _.
    + intros [_ H]. by apply Hpw in H as [? [=]].
  - rewrite decide_False.
    + eexists. split; [reflexivity|]. split; [done|].
      intros loc msg Hin. simpl in Hin.
      apply list_elem_of_singleton in Hin. by injection Hin as -> _.
    + intros [H _]. by apply Hun in H as [? [=]].
  - rewrite decide_False.
    + eexists. split; [reflexivity|]. split; [done|].
      intros loc msg Hin. simpl in Hin.
      apply elem_of_cons in Hin as [Hin|Hin%list_elem_of_singleton];
        by injection Hin as -> _.
    + intros [H _]. by apply Hun in H as [? [=]].
Qed.

Lemma UserIn_bounds_examples :
  UserIn.validate (sample.user_data "alice" "not an address" "secret")
  = Ok (UserIn.mk "alice" "not an address" "secret")
  ∧ is_ok (UserIn.validate (sample.user_data "bob" "bob@example.org" "secret"))
    = false
  ∧ is_ok (UserIn.validate
             (sample.user_data "alice" "alice@example.org" "elevenchars"))
    = false.
Proof.
  split; [|split].
  - exact (UserIn_bounds (sample.user_data "alice" "not an address" "secret")
             "alice" "not an address" "secret" eq_refl eq_refl eq_refl).
  - pose proof (UserIn_bounds
                  (sample.user_data "bob" "bob@example.org" "secret")
                  "bob" "bob@example.org" "secret" eq_refl eq_refl eq_refl)
      as H.
    simpl in H. destruct H as (errors & -> & _). reflexivity.
  - pose proof (UserIn_bounds
                  (sample.user_data "alice" "alice@example.org" "elevenchars")
                  "alice" "alice@example.org" "elevenchars"
                  eq_refl eq_refl eq_refl) as H.
    simpl in H. destruct H as (errors & -> & _). reflexivity.
Defined.

(** X14. The update shape puts no bound on the length of a text field and
    keeps an empty string as it is: whatever strings are given for first
    name, [lastname], email, phone and notes, with a birth date that is
    acceptable, the shape is built with exactly those strings. *)
Theorem ContactUpdate_unbounded (data : gmap string pyval)
    (fn ln em ph ad : string) (dob : option date) :
  data !! "first_name" = Some (PyStr fn) →
  data !! "lastname" = Some (PyStr ln) →
  data !! "email" = Some (PyStr em) →
  data !! "phone_number" = Some (PyStr ph) →
  data !! "additional_data" = Some (PyStr ad) →
  optional_date ContactUpdate.check_date_format (data !! "date_of_birth")
  = inl dob →
  ContactUpdate.validate data
  = Ok (ContactUpdate.mk (Some fn) (Some ln) (Some em) (Some ph) dob
          (Some ad)).
Proof.
  intros H1 H2 H3 H4 H5 H6. unfold ContactUpdate.validate.
  by rewrite H1, H2, H3, H4, H5, H6.
Qed.

Lemma ContactUpdate_unbounded_long_name :
  (25 < String.length sample.long_notes)%nat
  ∧ ContactUpdate.validate
      (<["lastname" := PyStr ""]>
         (sample.ann_data "" sample.long_notes))
    = Ok (ContactUpdate.mk (Some "Ann") (Some "") (Some "ann@example.org")
            (Some "555-0101") None (Some sample.long_notes)).
Proof.
  split; [vm_compute; lia|].
  apply (ContactUpdate_unbounded _ "Ann" "" "ann@example.org" "555-0101"
           sample.long_notes None); reflexivity.
Defined.

(** X15. [ContactIn] requires its five text fields: when one of them is
    missing from the keyword arguments, or is [None], construction raises
    a validation error that names the field. The birth date alone may be
    left out. *)
Theorem ContactIn_required (data : gmap string pyval) (key : string) :
  key ∈ ["first_name"; "last_name"; "email"; "phone_number";
         "additional_data"] →
  data !! key = None ∨ data !! key = Some PyNone →
  ∃ errors msg,
    ContactIn.validate data = Raise (ValidationError errors)
    ∧ (key, msg) ∈ errors
    ∧ msg = match data !! key with
            | None => "field required"
            | Some _ => "none is not an allowed value"
            end.
Proof.
  intros Hkey Hmissing.
  pose proof (ContactIn_validate_cases data) as Hcases.
  assert (∀ n, str_max_length n (data !! key)
               = inr match data !! key with
                     | None => "field required"
                     | Some _ => "none is not an allowed value"
                     end) as Hfield.
  { intros n. by destruct Hmissing as [->| ->]. }
  destruct (ContactIn.validate data) as [b|e].
  - exfalso. destruct Hcases as (K1 & K2 & K3 & K4 & _ & K5).
    repeat (apply elem_of_cons in Hkey as [->|Hkey];
            [rewrite Hfield in *; discriminate|]).
    by apply elem_of_nil in Hkey.
  - destruct Hcases as (errors & -> & _ & ->).
    eexists _, _. split; [reflexivity|]. split; [|reflexivity].
    rewrite !elem_of_app, !elem_of_field_errors.
    repeat (apply elem_of_cons in Hkey as [->|Hkey];
            [rewrite Hfield; tauto|]).
    by apply elem_of_nil in Hkey.
Qed.

Lemma ContactIn_required_examples :
  is_ok (ContactIn.validate
           (delete "email" (sample.ann_data "1990-01-30" "met at work")))
  = false
  ∧ ContactIn.validate
      (delete "date_of_birth" (sample.ann_data "1990-01-30" "met at work"))
    = Ok (ContactIn.mk "Ann" "Smith" "ann@example.org" "555-0101" None
            "met at work").
Proof.
  split; [|vm_compute; reflexivity].
  destruct (ContactIn_required
              (delete "email" (sample.ann_data "1990-01-30" "met at work"))
              "email") as (errors & msg & -> & _).
  - do 2 right. left.
  - left. reflexivity.
  - reflexivity.
Defined.

(* ===================================================================== *)
(** ** The birthday window on the calendar *)
(* ===================================================================== *)

Section Calendar.

Import datetime.

Ltac bool_to_prop :=
  rewrite ?andb_true_iff, ?orb_true_iff, ?negb_true_iff, ?Z.eqb_eq, ?Z.eqb_neq.

(** A year as 400-year, 100-year and 4-year cycles and single years. *)
Lemma dby_decomp (y : Z) :
  1 ≤ y →
  ∃ a b c e, 0 ≤ a ∧ 0 ≤ b ≤ 3 ∧ 0 ≤ c ≤ 24 ∧ 0 ≤ e ≤ 3
    ∧ y = 400 * a + 100 * b + 4 * c + e + 1
    ∧ days_before_year y = 146097 * a + 36524 * b + 1461 * c + 365 * e
    ∧ is_leap y = bool_decide (e = 3 ∧ (c ≠ 24 ∨ b = 3)).
Proof.
  intros Hy.
  exists ((y - 1) / 400), ((y - 1) mod 400 / 100), ((y - 1) mod 100 / 4),
    ((y - 1) mod 4).
  unfold days_before_year, is_leap.
  repeat split; try (Z.div_mod_to_equations; lia).
  case_bool_decide as H.
  - bool_to_prop. Z.div_mod_to_equations. lia.
  - apply not_true_is_false. bool_to_prop. intros H'. apply H.
    Z.div_mod_to_equations. lia.
Qed.

Lemma div_mod_eq (k q r : Z) :
  0 ≤ r < k → (k * q + r) / k = q ∧ (k * q + r) mod k = r.
Proof.
  intros Hr. split.
  - symmetry. apply (Z.div_unique _ _ _ r); lia.
  - symmetry. apply (Z.mod_unique _ _ q r); lia.
Qed.

Lemma ord_parts (a b c e doy : Z) :
  0 ≤ b ≤ 3 → 0 ≤ c ≤ 24 → 0 ≤ e ≤ 3 → 0 ≤ doy ≤ 364 →
  let n := 146097 * a + (36524 * b + (1461 * c + (365 * e + doy))) in
  n / 146097 = a
  ∧ n mod 146097 / 36524 = b
  ∧ (n mod 146097) mod 36524 / 1461 = c
  ∧ ((n mod 146097) mod 36524) mod 1461 / 365 = e
  ∧ ((n mod 146097) mod 36524) mod 1461 mod 365 = doy.
Proof.
  intros Hb Hc He Hd n. unfold n.
  destruct (div_mod_eq 146097 a (36524 * b + (1461 * c + (365 * e + doy))))
    as [-> ->]; [lia|].
  destruct (div_mod_eq 36524 b (1461 * c + (365 * e + doy))) as [-> ->]; [lia|].
  destruct (div_mod_eq 1461 c (365 * e + doy)) as [-> ->]; [lia|].
  destruct (div_mod_eq 365 e doy) as [-> ->]; [lia|]. done.
Qed.

Lemma ord_last_day (a b c : Z) :
  0 ≤ b ≤ 3 → 0 ≤ c ≤ 24 → c ≠ 24 ∨ b = 3 →
  ord2ymd (146097 * a + 36524 * b + 1461 * c + 365 * 3 + 365 + 1)
  = mkdate (400 * a + 100 * b + 4 * c + 4) 12 31.
Proof.
  intros Hb Hc Hl. unfold ord2ymd. cbv zeta.
  change DI400Y with 146097; change DI100Y with 36524; change DI4Y with 1461.
  rewrite Z.add_simpl_r.
  destruct (decide (c = 24)) as [->|Hc24].
  - assert (b = 3) as -> by lia.
    replace (146097 * a + 36524 * 3 + 1461 * 24 + 365 * 3 + 365)
      with (146097 * a + 146096) by lia.
    destruct (div_mod_eq 146097 a 146096) as [-> ->]; [lia|].
    simpl. f_equal. Z.div_mod_to_equations. lia.
  - replace (146097 * a + 36524 * b + 1461 * c + 365 * 3 + 365)
      with (146097 * a + (36524 * b + (1461 * c + 1460))) by lia.
    destruct (div_mod_eq 146097 a (36524 * b + (1461 * c + 1460)))
      as [-> ->]; [lia|].
    destruct (div_mod_eq 36524 b (1461 * c + 1460)) as [-> ->]; [lia|].
    destruct (div_mod_eq 1461 c 1460) as [-> ->]; [lia|].
    change (1460 `div` 365) with 4. simpl. f_equal. lia.
Qed.

Ltac finish_month :=
  match goal with
  | |- context [(?x + 50) `div` 32] =>
      let est := fresh "est" in
      let Hest := fresh "Hest" in
      remember ((x + 50) `div` 32) as est eqn:Hest;
      match goal with
      | |- _ = {| year := _; month := ?k; day := _ |} =>
          let Hk := fresh "Hk" in
          assert (est = k ∨ est = k + 1) as [Hk|Hk]
            by (subst est; Z.div_mod_to_equations; lia);
          rewrite Hk in *; clear Hk;
          unfold table, DAYS_BEFORE_MONTH, DAYS_IN_MONTH; simpl;
          match goal with
          | |- context [?u <? ?v] => destruct (Z.ltb_spec u v)
          end;
          first [ f_equal; lia | exfalso; Z.div_mod_to_equations; lia ]
      end
  end.

(** The ordinal of a day that is not the last of a leap year, cut into
    cycles, and [ord2ymd] unfolded on it up to the estimate of the month. *)
Ltac split_ordinal a b c e :=
  unfold table, DAYS_IN_MONTH, DAYS_BEFORE_MONTH in *; simpl in *;
  let P1 := fresh "P" in
  let P2 := fresh "P" in
  let P3 := fresh "P" in
  let P4 := fresh "P" in
  let P5 := fresh "P" in
  match goal with
  | |- ord2ymd (?base + ?dbm + ?d) = _ =>
      pose proof (ord_parts a b c e (dbm + d - 1)
                    ltac:(lia) ltac:(lia) ltac:(lia) ltac:(lia))
        as (P1 & P2 & P3 & P4 & P5);
      replace (base + dbm + d)
        with (146097 * a
              + (36524 * b + (1461 * c + (365 * e + (dbm + d - 1)))) + 1)
        by lia
  end;
  unfold ord2ymd; cbv zeta;
  change DI400Y with 146097; change DI100Y with 36524; change DI4Y with 1461;
  rewrite Z.add_simpl_r, P1, P2, P3, P4, P5; clear P1 P2 P3 P4 P5.

(** [fromordinal(toordinal(d)) = d] for every date of the calendar. *)
Lemma ord2ymd_ymd2ord (y m d : Z) :
  check_date_fields y m d = true → ord2ymd (ymd2ord y m d) = mkdate y m d.
Proof.
  unfold check_date_fields, MINYEAR, MAXYEAR. intros H.
  repeat (apply andb_prop in H as [H ?]).
  repeat match goal with
         | Hb : (_ <=? _) = true |- _ => apply Z.leb_le in Hb
         end.
  destruct (dby_decomp y ltac:(lia))
    as (a & b & c & e & Ha & Hb & Hc & He & Hy & Hdby & Hleap).
  unfold ymd2ord. rewrite Hdby.
  unfold days_in_month in *. unfold days_before_month.
  rewrite Hleap in *. clear Hleap Hdby.
  assert (m = 1 ∨ m = 2 ∨ m = 3 ∨ m = 4 ∨ m = 5 ∨ m = 6 ∨ m = 7 ∨ m = 8
          ∨ m = 9 ∨ m = 10 ∨ m = 11 ∨ m = 12) as Hm by lia.
  case_bool_decide as Hl.
  - destruct Hl as [-> Hl].
    destruct (decide (m = 12 ∧ d = 31)) as [[-> ->]|Hlast].
    { unfold table, DAYS_BEFORE_MONTH. simpl.
      match goal with
      | |- ord2ymd ?n = _ =>
          replace n
            with (146097 * a + 36524 * b + 1461 * c + 365 * 3 + 365 + 1) by lia
      end.
      rewrite ord_last_day by lia. f_equal. lia. }
    repeat (destruct Hm as [->|Hm]; [| ]); try subst m; split_ordinal a b c 3.
    all: replace ((3 =? 4) || (b =? 4)) with false
      by (symmetry; apply orb_false_iff; bool_to_prop; lia).
    all: replace ((3 =? 3) && (negb (c =? 24) || (b =? 3))) with true
      by (symmetry; bool_to_prop; lia).
    all: rewrite Z.shiftr_div_pow2 by lia; change (2 ^ 5) with 32.
    all: finish_month.
  - repeat (destruct Hm as [->|Hm]; [| ]); try subst m; split_ordinal a b c e.
    all: replace ((e =? 4) || (b =? 4)) with false
      by (symmetry; apply orb_false_iff; bool_to_prop; lia).
    all: replace ((e =? 3) && (negb (c =? 24) || (b =? 3))) with false
      by (symmetry; apply not_true_is_false; bool_to_prop; lia).
    all: rewrite Z.shiftr_div_pow2 by lia; change (2 ^ 5) with 32.
    all: finish_month.
Qed.

Lemma check_date_fields_spec (y m d : Z) :
  check_date_fields y m d = true
  ↔ 1 ≤ y ≤ 9999 ∧ 1 ≤ m ≤ 12 ∧ 1 ≤ d ≤ days_in_month y m.
Proof.
  unfold check_date_fields, MINYEAR, MAXYEAR.
  rewrite !andb_true_iff, !Z.leb_le. lia.
Qed.

Lemma days_in_month_range (y m : Z) :
  1 ≤ m ≤ 12 → 28 ≤ days_in_month y m ≤ 31.
Proof.
  intros Hm. unfold days_in_month, table, DAYS_IN_MONTH.
  assert (m = 1 ∨ m = 2 ∨ m = 3 ∨ m = 4 ∨ m = 5 ∨ m = 6 ∨ m = 7 ∨ m = 8
          ∨ m = 9 ∨ m = 10 ∨ m = 11 ∨ m = 12) as Hcases by lia.
  repeat (destruct Hcases as [->|Hcases]; [destruct (is_leap y); simpl; lia|]).
  subst m. simpl. lia.
Qed.

Lemma days_before_month_succ (y m : Z) :
  1 ≤ m ≤ 11 →
  days_before_month y (m + 1) = days_before_month y m + days_in_month y m.
Proof.
  intros Hm. unfold days_before_month, days_in_month, table,
    DAYS_BEFORE_MONTH, DAYS_IN_MONTH.
  assert (m = 1 ∨ m = 2 ∨ m = 3 ∨ m = 4 ∨ m = 5 ∨ m = 6 ∨ m = 7 ∨ m = 8
          ∨ m = 9 ∨ m = 10 ∨ m = 11) as Hcases by lia.
  repeat (destruct Hcases as [->|Hcases]; [destruct (is_leap y); simpl; lia|]).
  subst m. destruct (is_leap y); simpl; lia.
Qed.

Lemma days_before_year_succ (y : Z) :
  1 ≤ y →
  days_before_year (y + 1)
  = days_before_year y + 365 + (if is_leap y then 1 else 0).
Proof.
  intros Hy. unfold days_before_year, is_leap.
  destruct (Z.eqb_spec (y mod 4) 0), (Z.eqb_spec (y mod 100) 0),
    (Z.eqb_spec (y mod 400) 0); simpl; Z.div_mod_to_equations; lia.
Qed.

Lemma ymd2ord_bounds (y m d : Z) :
  check_date_fields y m d = true → 1 ≤ ymd2ord y m d ≤ MAXORDINAL.
Proof.
  intros Hv. apply check_date_fields_spec in Hv as (Hy & Hm & Hd).
  assert (days_before_month y m + d ≤ 365 + (if is_leap y then 1 else 0)
          ∧ 0 ≤ days_before_month y m) as [Hdoy Hdbm].
  { revert Hd. unfold days_before_month, days_in_month, table,
      DAYS_BEFORE_MONTH, DAYS_IN_MONTH.
    assert (m = 1 ∨ m = 2 ∨ m = 3 ∨ m = 4 ∨ m = 5 ∨ m = 6 ∨ m = 7 ∨ m = 8
            ∨ m = 9 ∨ m = 10 ∨ m = 11 ∨ m = 12) as Hcases by lia.
    repeat (destruct Hcases as [->|Hcases]; [destruct (is_leap y); simpl; lia|]).
    subst m. destruct (is_leap y); simpl; lia. }
  unfold ymd2ord, MAXORDINAL.
  assert (0 ≤ days_before_year y ∧ days_before_year (y + 1) ≤ 3652059) as [? ?].
  { unfold days_before_year. split; Z.div_mod_to_equations; lia. }
  rewrite days_before_year_succ in * by lia. lia.
Qed.

Lemma add_days_small (y m d k : Z) :
  check_date_fields y m d = true → 0 ≤ k ≤ 28 →
  add_days (mkdate y m d) k
  = if d + k <=? days_in_month y m then Ok (mkdate y m (d + k))
    else if m <? 12 then Ok (mkdate y (m + 1) (d + k - days_in_month y m))
    else if y <? 9999 then Ok (mkdate (y + 1) 1 (d + k - 31))
    else Raise (OverflowError "date value out of range").
Proof.
  intros Hv Hk. pose proof (proj1 (check_date_fields_spec _ _ _) Hv) as (Hy & Hm & Hd).
  pose proof (days_in_month_range y m Hm) as Hdim.
  assert (∀ y' m' d', check_date_fields y' m' d' = true →
            toordinal (mkdate y m d) + k = ymd2ord y' m' d' →
            add_days (mkdate y m d) k = Ok (mkdate y' m' d')) as Hgo.
  { intros y' m' d' Hv' Heq. unfold add_days. rewrite Heq.
    pose proof (ymd2ord_bounds _ _ _ Hv') as [? ?].
    rewrite (proj2 (Z.ltb_lt _ _)), (proj2 (Z.leb_le _ _)) by lia.
    simpl. by rewrite ord2ymd_ymd2ord. }
  destruct (Z.leb_spec (d + k) (days_in_month y m)).
  { apply Hgo; [apply check_date_fields_spec; lia|].
    unfold toordinal, ymd2ord. simpl. lia. }
  destruct (Z.ltb_spec m 12).
  { apply Hgo.
    - apply check_date_fields_spec.
      pose proof (days_in_month_range y (m + 1) ltac:(lia)). lia.
    - unfold toordinal, ymd2ord. simpl.
      rewrite days_before_month_succ by lia. lia. }
  assert (m = 12) as -> by lia.
  assert (days_in_month y 12 = 31) as Hdec.
  { unfold days_in_month. simpl. reflexivity. }
  destruct (Z.ltb_spec y 9999).
  { apply Hgo.
    - apply check_date_fields_spec.
      pose proof (days_in_month_range (y + 1) 1 ltac:(lia)). lia.
    - unfold toordinal, ymd2ord. simpl.
      rewrite days_before_year_succ by lia.
      unfold days_before_month, table, DAYS_BEFORE_MONTH. simpl.
      destruct (is_leap y); simpl; lia. }
  assert (y = 9999) as -> by lia.
  unfold add_days, toordinal, ymd2ord. simpl.
  change (days_before_year 9999) with 3651694.
  change (days_before_month 9999 12) with 334.
  rewrite Hdec in *.
  rewrite (proj2 (Z.leb_gt _ _)) by (unfold MAXORDINAL; lia).
  by rewrite andb_false_r.
Qed.

Lemma days_in_month_years (y y' m : Z) :
  1 ≤ m ≤ 12 →
  days_in_month y' m ≤ days_in_month y m
  ∨ (m = 2 ∧ is_leap y = false ∧ days_in_month y m = 28
     ∧ days_in_month y' m = 29).
Proof.
  intros Hm. unfold days_in_month.
  destruct (Z.eqb_spec m 2) as [->|]; simpl; [|lia].
  destruct (is_leap y), (is_leap y'); simpl; unfold table; simpl; lia.
Qed.

Lemma window_complete (today next dob : date) :
  valid today → add_days today 7 = Ok next →
  spec.within_next_week today dob → spec.upcoming_birthday today next dob.
Proof.
  destruct today as [y m d]. unfold valid. simpl. intros Hv%Is_true_true Hnext.
  intros (k & dk & Hk & Hdk & Hmonth & Hday).
  pose proof (proj1 (check_date_fields_spec _ _ _) Hv) as (Hy & Hm & Hd).
  pose proof (days_in_month_range y m Hm) as Hdim.
  rewrite add_days_small in Hnext, Hdk by (done || lia).
  unfold spec.upcoming_birthday. rewrite Hmonth, Hday.
  destruct (Z.leb_spec (d + 7) (days_in_month y m)),
    (Z.leb_spec (d + k) (days_in_month y m)),
    (Z.ltb_spec m 12), (Z.ltb_spec y 9999);
    try discriminate; injection Hnext as <-; injection Hdk as <-; simpl;
    destruct (decide _); lia.
Qed.

Lemma window_sound (today next dob : date) :
  valid today → add_days today 7 = Ok next → valid dob →
  spec.upcoming_birthday today next dob →
  spec.within_next_week today dob
  ∨ (month dob = 2 ∧ day dob = 29 ∧ month today = 2
     ∧ is_leap (year today) = false ∧ 22 ≤ day today).
Proof.
  destruct today as [y m d], dob as [y' m' d']. unfold valid. simpl.
  intros Hv%Is_true_true Hnext Hv'%Is_true_true.
  pose proof (proj1 (check_date_fields_spec _ _ _) Hv) as (Hy & Hm & Hd).
  pose proof (proj1 (check_date_fields_spec _ _ _) Hv') as (Hy' & Hm' & Hd').
  pose proof (days_in_month_range y m Hm) as Hdim.
  assert (∀ k, 0 ≤ k ≤ 7 →
            (if d + k <=? days_in_month y m then m' = m ∧ d' = d + k
             else if m <? 12 then m' = m + 1 ∧ d' = d + k - days_in_month y m
             else y < 9999 ∧ m' = 1 ∧ d' = d + k - 31) →
            spec.within_next_week (mkdate y m d) (mkdate y' m' d')) as Hwit.
  { intros k Hk Hcase. exists k.
    rewrite add_days_small by (done || lia).
    destruct (Z.leb_spec (d + k) (days_in_month y m)).
    { eexists. split; [done|]. split; [done|]. simpl. lia. }
    destruct (Z.ltb_spec m 12).
    { eexists. split; [done|]. split; [done|]. simpl. lia. }
    rewrite (proj2 (Z.ltb_lt y 9999)) by lia.
    eexists. split; [done|]. split; [done|]. simpl. lia. }
  rewrite add_days_small in Hnext by (done || lia).
  unfold spec.upcoming_birthday.
  destruct (Z.leb_spec (d + 7) (days_in_month y m)).
  { injection Hnext as <-. simpl. rewrite decide_True by done.
    intros [-> Hrange]. left. apply (Hwit (d' - d)); [lia|].
    rewrite (proj2 (Z.leb_le _ _)) by lia. lia. }
  assert (∀ mn dn yn, mn ≠ m → next = mkdate yn mn dn →
            (m < 12 → mn = m + 1 ∧ dn = d + 7 - days_in_month y m) →
            (m = 12 → y < 9999 ∧ mn = 1 ∧ dn = d + 7 - 31) →
            (m' = m ∧ d ≤ d') ∨ (m' = mn ∧ d' ≤ dn) →
            spec.within_next_week (mkdate y m d) (mkdate y' m' d')
            ∨ (m' = 2 ∧ d' = 29 ∧ m = 2 ∧ is_leap y = false ∧ 22 ≤ d)) as Hcross.
  { intros mn dn yn Hmn -> H12 H12' [[-> Hge]|[-> Hle]].
    - destruct (days_in_month_years y y' m Hm) as [Hsame|(-> & Hleap & H28 & H29)].
      + left. apply (Hwit (d' - d)); [lia|].
        rewrite (proj2 (Z.leb_le _ _)) by lia. lia.
      + destruct (decide (d' = 29)) as [->|].
        * right. repeat split; try done. lia.
        * left. apply (Hwit (d' - d)); [lia|].
          rewrite (proj2 (Z.leb_le _ _)) by lia. lia.
    - left.
      destruct (decide (m = 12)) as [->|].
      + assert (days_in_month y 12 = 31) as H31 by done.
        apply (Hwit (31 - d + d')); [lia|].
        rewrite (proj2 (Z.leb_gt _ _)) by lia. simpl. lia.
      + apply (Hwit (days_in_month y m - d + d')); [lia|].
        rewrite (proj2 (Z.leb_gt _ _)) by lia.
        rewrite (proj2 (Z.ltb_lt m 12)) by lia. lia. }
  destruct (Z.ltb_spec m 12).
  { injection Hnext as <-. simpl. rewrite decide_False by lia.
    apply (Hcross (m + 1) (d + 7 - days_in_month y m) y); [lia|done|lia|lia]. }
  destruct (Z.ltb_spec y 9999); [|done].
  injection Hnext as <-. simpl. rewrite decide_False by lia.
  apply (Hcross 1 (d + 7 - 31) (y + 1)); [lia|done|lia|lia].
Qed.

Lemma birthday_query_eq (today next : date) (skip lim : Z) (db : Session) :
  add_days today 7 = Ok next → 0 ≤ skip → 0 ≤ lim →
  get_contacts_birthday_for_next_week today skip lim db
  = Ok (take (Z.to_nat lim) (drop (Z.to_nat skip)
          (merge_sort dob_le
             (filter (λ c, spec.upcoming_birthday today next
                             (Contact.date_of_birth c)) (contacts db))))).
Proof.
  intros Hnext Hs Hl. unfold get_contacts_birthday_for_next_week.
  rewrite Hnext. simpl. rewrite all_ordered_page by done.
  do 4 f_equal. apply list_filter_iff.
  intros c. unfold sql.or_, sql.and_, sql.extract, spec.upcoming_birthday.
  simpl. rewrite !orb_false_r, !andb_true_r.
  destruct (decide _) as [Heq|Hne].
  - rewrite (proj2 (Z.eqb_eq _ _) Heq). simpl. rewrite orb_false_r.
    rewrite !andb_True, !Is_true_true, Z.eqb_eq, Z.geb_le, Z.leb_le. lia.
  - rewrite (proj2 (Z.eqb_neq _ _) Hne). simpl.
    rewrite orb_True, !andb_True, !Is_true_true, !Z.eqb_eq, Z.geb_le,
      Z.leb_le. lia.
Qed.

Lemma elem_of_birthday_matches (today next : date) (db : Session)
    (c : Contact.t) :
  c ∈ merge_sort dob_le
        (filter (λ c, spec.upcoming_birthday today next
                        (Contact.date_of_birth c)) (contacts db))
  ↔ spec.upcoming_birthday today next (Contact.date_of_birth c)
    ∧ c ∈ contacts db.
Proof. by rewrite merge_sort_Permutation, list_elem_of_filter. Qed.

Lemma length_birthday_matches (today next : date) (db : Session) :
  (length (merge_sort dob_le
             (filter (λ c, spec.upcoming_birthday today next
                             (Contact.date_of_birth c)) (contacts db)))
   ≤ length (contacts db))%nat.
Proof.
  rewrite (Permutation_length (merge_sort_Permutation dob_le _)).
  apply length_filter.
Qed.

Lemma whole_page {A} (l : list A) (lim : Z) :
  Z.of_nat (length l) ≤ lim → take (Z.to_nat lim) (drop (Z.to_nat 0) l) = l.
Proof. intros Hlim. simpl. apply take_ge. lia. Qed.

(** X16. No birthday of the coming week is missed. For a date [today]
    whose seventh day after exists, every stored contact whose birthday,
    by month and day, is [today] or one of the seven days after it is in
    the answer of the birthday query, the whole result taken ([skip] zero
    and [limit] at least the number of stored contacts); the turn of a
    month and of a year are covered. *)
Theorem upcoming_birthdays_complete (today next : date) (lim : Z)
    (db : Session) (c : Contact.t) :
  valid today → add_days today 7 = Ok next →
  Z.of_nat (length (contacts db)) ≤ lim →
  c ∈ contacts db →
  spec.within_next_week today (Contact.date_of_birth c) →
  ∃ found,
    get_contacts_birthday_for_next_week today 0 lim db = Ok found
    ∧ c ∈ found.
Proof.
  intros Hv Hnext Hlim Hc Hweek.
  rewrite (birthday_query_eq today next) by (done || lia).
  eexists. split; [reflexivity|].
  rewrite whole_page.
  - apply elem_of_birthday_matches. split; [|done].
    by apply window_complete.
  - etrans; [apply inj_le, length_birthday_matches|done].
Qed.

Lemma upcoming_birthdays_complete_new_year :
  valid (mkdate 2023 12 28)
  ∧ add_days (mkdate 2023 12 28) 7 = Ok (mkdate 2024 1 4)
  ∧ spec.within_next_week (mkdate 2023 12 28)
      (Contact.date_of_birth sample.dee)
  ∧ ∃ found,
      get_contacts_birthday_for_next_week (mkdate 2023 12 28) 0 10
        sample.seeded = Ok found
      ∧ sample.dee ∈ found.
Proof.
  assert (valid (mkdate 2023 12 28)) as Hv by (vm_compute; exact I).
  assert (add_days (mkdate 2023 12 28) 7 = Ok (mkdate 2024 1 4)) as Hnext
    by (vm_compute; reflexivity).
  assert (spec.within_next_week (mkdate 2023 12 28)
            (Contact.date_of_birth sample.dee)) as Hweek.
  { exists 3, (mkdate 2023 12 31). split; [lia|].
    split; [vm_compute; reflexivity|]. split; reflexivity. }
  split; [exact Hv|]. split; [exact Hnext|]. split; [exact Hweek|].
  apply (upcoming_birthdays_complete _ _ 10 sample.seeded sample.dee Hv Hnext).
  - simpl. lia.
  - unfold sample.seeded. simpl. do 3 right. left.
  - exact Hweek.
Defined.

(** X17. What the birthday query returns is stored, and its birthday is in
    the coming week, with one exception. For non-negative [skip] and
    [limit], every returned contact is a stored one, and if its date of
    birth is a date of the calendar, then its month and day are those of
    [today] or of one of the seven days after it, unless it was born on 29
    February and [today] is 22 February or later in a year that is not a
    leap year. *)
Theorem upcoming_birthdays_sound (today next : date) (skip lim : Z)
    (db : Session) :
  valid today → add_days today 7 = Ok next → 0 ≤ skip → 0 ≤ lim →
  ∃ found,
    get_contacts_birthday_for_next_week today skip lim db = Ok found
    ∧ ∀ c, c ∈ found →
        c ∈ contacts db
        ∧ (valid (Contact.date_of_birth c) →
           spec.within_next_week today (Contact.date_of_birth c)
           ∨ (month (Contact.date_of_birth c) = 2
              ∧ day (Contact.date_of_birth c) = 29
              ∧ month today = 2 ∧ is_leap (year today) = false
              ∧ 22 ≤ day today)).
Proof.
  intros Hv Hnext Hs Hl.
  rewrite (birthday_query_eq today next) by done.
  eexists. split; [reflexivity|]. intros c Hc.
  apply subseteq_take, subseteq_drop, elem_of_birthday_matches in Hc
    as [Hup Hin].
  split; [done|]. intros Hvc. by eapply window_sound.
Qed.

Lemma upcoming_birthdays_sound_seeded :
  valid (mkdate 2024 1 28)
  ∧ add_days (mkdate 2024 1 28) 7 = Ok (mkdate 2024 2 4)
  ∧ ∃ found,
      get_contacts_birthday_for_next_week (mkdate 2024 1 28) 0 10
        sample.seeded = Ok found
      ∧ ∀ c, c ∈ found →
          c ∈ contacts sample.seeded
          ∧ (valid (Contact.date_of_birth c) →
             spec.within_next_week (mkdate 2024 1 28)
               (Contact.date_of_birth c)
             ∨ (month (Contact.date_of_birth c) = 2
                ∧ day (Contact.date_of_birth c) = 29
                ∧ month (mkdate 2024 1 28) = 2
                ∧ is_leap (year (mkdate 2024 1 28)) = false
                ∧ 22 ≤ day (mkdate 2024 1 28))).
Proof.
  assert (valid (mkdate 2024 1 28)) as Hv by (vm_compute; exact I).
  assert (add_days (mkdate 2024 1 28) 7 = Ok (mkdate 2024 2 4)) as Hnext
    by (vm_compute; reflexivity).
  split; [exact Hv|]. split; [exact Hnext|].
  exact (upcoming_birthdays_sound _ _ 0 10 sample.seeded Hv Hnext
           ltac:(lia) ltac:(lia)).
Defined.

(** X18. The exception happens. From 22 to 28 February of a year that is
    not a leap year, the birthday query returns the stored contacts born
    on 29 February (the whole result taken), although 29 February is none
    of the eight days from [today] to [today + 7]. *)
Theorem leap_day_birthdays (today : date) (lim : Z) (db : Session)
    (c : Contact.t) :
  valid today → month today = 2 → is_leap (year today) = false →
  22 ≤ day today →
  Z.of_nat (length (contacts db)) ≤ lim →
  c ∈ contacts db →
  month (Contact.date_of_birth c) = 2 → day (Contact.date_of_birth c) = 29 →
  (∃ found,
     get_contacts_birthday_for_next_week today 0 lim db = Ok found
     ∧ c ∈ found)
  ∧ ¬ spec.within_next_week today (Contact.date_of_birth c).
Proof.
  destruct today as [y m d]. unfold valid. simpl.
  intros Hv%Is_true_true -> Hleap Hd Hlim Hc Hmonth Hday.
  pose proof (proj1 (check_date_fields_spec _ _ _) Hv) as (Hy & _ & Hd').
  assert (days_in_month y 2 = 28) as H28
    by (unfold days_in_month; by rewrite Hleap).
  rewrite H28 in Hd'.
  assert (add_days (mkdate y 2 d) 7 = Ok (mkdate y 3 (d + 7 - 28))) as Hnext.
  { rewrite add_days_small by (done || lia). rewrite H28.
    by rewrite (proj2 (Z.leb_gt _ _)) by lia. }
  split.
  - rewrite (birthday_query_eq _ _ _ _ _ Hnext) by lia.
    eexists. split; [reflexivity|]. rewrite whole_page.
    + apply elem_of_birthday_matches. split; [|done].
      unfold spec.upcoming_birthday. simpl. lia.
    + etrans; [apply inj_le, length_birthday_matches|done].
  - intros (k & dk & Hk & Hdk & Hm & Hdd).
    rewrite add_days_small in Hdk by (done || lia). rewrite H28 in Hdk.
    destruct (Z.leb_spec (d + k) 28); simpl in Hdk;
      injection Hdk as <-; simpl in *; lia.
Qed.

Lemma leap_day_birthdays_2023 :
  valid (mkdate 2023 2 25)
  ∧ is_leap 2023 = false
  ∧ (∃ found,
       get_contacts_birthday_for_next_week (mkdate 2023 2 25) 0 10
         sample.leap_store = Ok found
       ∧ sample.feb ∈ found)
  ∧ ¬ spec.within_next_week (mkdate 2023 2 25)
        (Contact.date_of_birth sample.feb).
Proof.
  assert (valid (mkdate 2023 2 25)) as Hv by (vm_compute; exact I).
  split; [exact Hv|]. split; [reflexivity|].
  apply (leap_day_birthdays (mkdate 2023 2 25) 10 sample.leap_store
           sample.feb Hv eq_refl eq_refl).
  - simpl. lia.
  - simpl. lia.
  - unfold sample.leap_store. simpl. right. left.
  - reflexivity.
  - reflexivity.
Defined.

(** X19. The birthday query answers for every date of the calendar up
    to 24 December 9999, whatever non-negative [skip] and [limit], and
    raises [OverflowError] on the seven days after it, where [today + 7]
    is past the last date. *)
Theorem upcoming_birthdays_total (today : date) (skip lim : Z)
    (db : Session) :
  valid today → 0 ≤ skip → 0 ≤ lim →
  if decide (year today = 9999 ∧ month today = 12 ∧ 25 ≤ day today)
  then ∃ msg,
         get_contacts_birthday_for_next_week today skip lim db
         = Raise (OverflowError msg)
  else ∃ found,
         get_contacts_birthday_for_next_week today skip lim db = Ok found.
Proof.
  destruct today as [y m d]. unfold valid. simpl.
  intros Hv%Is_true_true Hs Hl.
  pose proof (proj1 (check_date_fields_spec _ _ _) Hv) as (Hy & Hm & Hd).
  pose proof (days_in_month_range y m Hm) as Hdim.
  pose proof (add_days_small y m d 7 Hv ltac:(lia)) as Hnext.
  destruct (decide _) as [(-> & -> & H25)|Hok].
  - unfold get_contacts_birthday_for_next_week. rewrite Hnext.
    change (days_in_month 9999 12) with 31.
    rewrite (proj2 (Z.leb_gt _ _)) by lia. simpl. eauto.
  - assert (∃ next, add_days (mkdate y m d) 7 = Ok next) as [next Hn].
    { rewrite Hnext.
      destruct (Z.leb_spec (d + 7) (days_in_month y m)); [by eauto|].
      destruct (Z.ltb_spec m 12); [by eauto|].
      destruct (Z.ltb_spec y 9999); [by eauto|].
      exfalso. apply Hok. assert (m = 12) as -> by lia.
      change (days_in_month y 12) with 31 in *. lia. }
    rewrite (birthday_query_eq _ _ _ _ _ Hn) by done. eauto.
Qed.

Lemma upcoming_birthdays_total_examples :
  valid (mkdate 9999 12 24) ∧ valid (mkdate 9999 12 25)
  ∧ (∃ found,
       get_contacts_birthday_for_next_week (mkdate 9999 12 24) 0 10
         sample.seeded = Ok found)
  ∧ (∃ msg,
       get_contacts_birthday_for_next_week (mkdate 9999 12 25) 0 10
         sample.seeded
       = Raise (OverflowError msg)).
Proof.
  assert (valid (mkdate 9999 12 24)) as Hv1 by (vm_compute; exact I).
  assert (valid (mkdate 9999 12 25)) as Hv2 by (vm_compute; exact I).
  split; [exact Hv1|]. split; [exact Hv2|]. split.
  - exact (upcoming_birthdays_total (mkdate 9999 12 24) 0 10 sample.seeded
             Hv1 ltac:(lia) ltac:(lia)).
  - exact (upcoming_birthdays_total (mkdate 9999 12 25) 0 10 sample.seeded
             Hv2 ltac:(lia) ltac:(lia)).
Defined.

End Calendar.

(* ===================================================================== *)
(** ** The underscore in a keyword *)
(* ===================================================================== *)

Lemma tokens_underscore (backslash : bool) (k rest : list ascii) :
  Forall (λ c, c = "_"%char) k →
  sql.tokens backslash (k ++ rest)
  = replicate (length k) sql.One ++ sql.tokens backslash rest.
Proof.
  induction 1 as [|c k -> _ IH]; [done|]. simpl. by rewrite IH.
Qed.

Lemma lower_underscore (k : list ascii) :
  Forall (λ c, c = "_"%char) k → map sql.lower_char k = k.
Proof. induction 1 as [|c k -> _ IH]; simpl; [done|]. by rewrite IH. Qed.

Lemma like_match_ones (n : nat) (s : list ascii) :
  sql.like_match (replicate n sql.One ++ [sql.Any]) s
  = bool_decide (n ≤ length s)%nat.
Proof.
  revert s. induction n as [|n IH]; intros s.
  - simpl app. rewrite like_match_any_end.
    by rewrite bool_decide_eq_true_2 by lia.
  - destruct s as [|x s].
    + rewrite bool_decide_eq_false_2 by (simpl; lia). done.
    + change (sql.like_match (replicate (S n) sql.One ++ [sql.Any]) (x :: s))
        with (sql.like_match (replicate n sql.One ++ [sql.Any]) s).
      rewrite IH. apply bool_decide_ext. simpl. lia.
Qed.

Lemma like_match_any_ones (n : nat) (s : list ascii) :
  sql.like_match (sql.Any :: replicate n sql.One ++ [sql.Any]) s
  = bool_decide (n ≤ length s)%nat.
Proof.
  induction s as [|x s IH].
  - by rewrite like_match_any, like_match_ones, orb_false_r.
  - rewrite like_match_any, like_match_ones, IH.
    destruct (decide (n ≤ length s)%nat).
    + rewrite !bool_decide_eq_true_2 by (simpl; lia). done.
    + rewrite (bool_decide_eq_false_2 (n ≤ length s)%nat) by done.
      apply orb_false_r.
Qed.

Lemma length_lower (s : string) : length (sql.lower s) = String.length s.
Proof. unfold sql.lower. by rewrite length_map, length_chars. Qed.

(** X20. An underscore in the keyword stands for any one character. For a
    keyword made of [n] underscores, [find_contact] returns the page of
    the stored contacts that have at least [n] characters in their first
    name, last name or email, whatever those characters are. *)
Theorem find_contact_underscores (keyword : string) (skip lim : Z)
    (db : Session) :
  Forall (λ c, c = "_"%char) (list_ascii_of_string keyword) →
  0 ≤ skip → 0 ≤ lim →
  find_contact keyword skip lim db
  = Ok (take (Z.to_nat lim) (drop (Z.to_nat skip)
          (filter
             (λ c, (String.length keyword ≤ String.length (Contact.first_name c)
                    ∨ String.length keyword ≤ String.length (Contact.last_name c)
                    ∨ String.length keyword ≤ String.length (Contact.email c))%nat)
             (contacts db)))).
Proof.
  intros Hk Hs Hl. unfold find_contact. rewrite all_query_page by done.
  do 3 f_equal. apply list_filter_iff. intros c.
  assert (∀ value, sql.ilike (backslash_escape db) value
                     ("%" +:+ keyword +:+ "%")
                   = bool_decide (String.length keyword ≤ String.length value)%nat)
    as Hlike.
  { intros value. unfold sql.ilike. rewrite lower_pattern.
    change (sql.tokens (backslash_escape db)
              ("%"%char :: sql.lower keyword ++ ["%"%char]))
      with (sql.Any :: sql.tokens (backslash_escape db)
                         (sql.lower keyword ++ ["%"%char])).
    unfold sql.lower at 1. rewrite lower_underscore by done.
    rewrite tokens_underscore by done.
    change (sql.tokens (backslash_escape db) ["%"%char]) with [sql.Any].
    by rewrite like_match_any_ones, length_chars, length_lower. }
  unfold sql.or_. simpl. rewrite !Hlike, orb_false_r.
  rewrite !orb_True, !bool_decide_spec. done.
Qed.

Lemma find_contact_underscores_seeded :
  0 ≤ 0 ∧ 0 ≤ 10
  ∧ find_contact "________________" 0 10 sample.seeded = Ok []
  ∧ find_contact "_______________" 0 10 sample.seeded
    = Ok [sample.ann; sample.bob; sample.dee; sample.eve].
Proof.
  split; [lia|]. split; [lia|]. split.
  - rewrite (find_contact_underscores "________________" 0 10 sample.seeded);
      [vm_compute; reflexivity|repeat constructor|lia|lia].
  - rewrite (find_contact_underscores "_______________" 0 10 sample.seeded);
      [vm_compute; reflexivity|repeat constructor|lia|lia].
Defined.
